(** * A TTL cache store over a remote backend: model and properties

    Shallow embedding of [src/stores/testStore.ts]: the generic
    [defineCacheStore] factory (the cache with its two time-to-live windows,
    the upsert helper, the four public operations and the per-identifier
    [itemHelpers] binding) and the demonstration backend ([api] over [db])
    that the test store wires into it.

    Modelling decisions, all read off the source:
    - a [Date] is its [getTime()] value, an integer number of milliseconds;
    - an identifier is a string or an integer and is compared with [===],
      which never identifies a string with a number;
    - a JavaScript object is its address together with its fields, so that
      the object literal [{ ...x }] (a new object with the fields of [x])
      differs from [x] itself; the engine allocates addresses in increasing
      order from [heapNext];
    - [new Date()] and the four backend functions belong to the environment:
      a world of type [W], read by [dateNow] and advanced by every backend
      call;
    - an [async] function runs to completion: the operations are modelled one
      call at a time, each backend [await] answered by the environment;
    - every reactive assignment to a progress flag, every backend call (with
      its answer) and every [console.error] is appended to an observable
      trace;
    - a record is an object, hence truthy, and [getUid] is a total function
      of its fields; the two windows are integers. *)

From Stdlib Require Import ZArith List Bool String Lia.
Import ListNotations.
Open Scope Z_scope.

Set Implicit Arguments.

(** ** JavaScript values used by the store *)

(** [string | number] identifiers. *)
Inductive ID : Type :=
| IdStr (s : string)
| IdNum (n : Z).

(** Strict equality [===] on identifiers. *)
Definition strictEq (a b : ID) : bool :=
  match a, b with
  | IdStr s, IdStr s' => String.eqb s s'
  | IdNum n, IdNum n' => Z.eqb n n'
  | _, _ => false
  end.

(** An object: where it lives and what it holds. *)
Record Obj (T : Type) : Type := mkObj { addr : nat; fields : T }.

(** [interface StoreItem<T> { item: T; lastFetched: Date }] *)
Record StoreItem (T : Type) : Type :=
  mkStoreItem { item : Obj T; lastFetched : Z }.

(** Outcome of an awaited promise. *)
Inductive Settled (E A : Type) : Type :=
| Resolved (a : A)
| Rejected (e : E).
Arguments Resolved {E A} a.
Arguments Rejected {E A} e.

(** What a [catch (e)] clause of the store can receive: a backend rejection
    or the store's own [new Error("Item not found")]. *)
Inductive Err (E : Type) : Type :=
| BackendError (e : E)
| ItemNotFound.
Arguments BackendError {E} e.
Arguments ItemNotFound {E}.

(** The backend calls of [DefineCacheStoreOpts]. *)
Inductive Call (T : Type) : Type :=
| CGetAllItems
| CGetItem (id : ID)
| CUpdateItem (id : ID) (o : Obj T)
| CCreateItem (o : Obj T).
Arguments CGetAllItems {T}.
Arguments CGetItem {T} id.

(** The value a backend promise resolved with. *)
Inductive Answer (T : Type) : Type :=
| AItems (l : list (Obj T))
| AItem (o : option (Obj T)).

(** Observable events. *)
Inductive Event (T E : Type) : Type :=
| EvBackend (c : Call T) (r : Settled E (Answer T))
| EvConsoleError (e : Err E)
| EvGettingAllItems (b : bool)
| EvGetting (b : bool)
| EvSaving (b : bool).
Arguments EvConsoleError {T E} e.
Arguments EvGettingAllItems {T E} b.
Arguments EvGetting {T E} b.
Arguments EvSaving {T E} b.

(** ** Array methods *)

Module JsArray.

(** [Array.prototype.findIndex]: index of the first match, [-1] if none. *)
Fixpoint findIndexFrom {A : Type} (p : A -> bool) (l : list A) (i : Z) : Z :=
  match l with
  | [] => -1
  | x :: l' => if p x then i else findIndexFrom p l' (i + 1)
  end.

Definition findIndex {A : Type} (p : A -> bool) (l : list A) : Z :=
  findIndexFrom p l 0.

(** [Array.prototype.find]: the first match, [undefined] if none. *)
Fixpoint find {A : Type} (p : A -> bool) (l : list A) : option A :=
  match l with
  | [] => None
  | x :: l' => if p x then Some x else find p l'
  end.

(** [Array.prototype.push] of one element. *)
Definition push {A : Type} (l : list A) (x : A) : list A := l ++ [x].

(** [Array.prototype.splice(start, deleteCount, x)]: a negative [start]
    counts from the end, and [start] is clamped to the array. *)
Definition splice {A : Type} (l : list A) (start : Z) (deleteCount : nat)
    (x : A) : list A :=
  let len := Z.of_nat (List.length l) in
  let s := if start <? 0 then Z.max (len + start) 0 else Z.min start len in
  firstn (Z.to_nat s) l ++ [x] ++ skipn (Z.to_nat s + deleteCount) l.

End JsArray.

(** ** The environment *)

(** [new Date().getTime()]: reading the clock may find that time has
    passed since the previous reading. *)
Class Clock (W : Type) : Type := { dateNow : W -> Z * W }.

(** A backend function: given the world and the next free address, it
    settles, and may have changed the world and allocated objects. *)
Definition Promise (W E A : Type) : Type := W -> nat -> Settled E A * W * nat.

(** [interface DefineCacheStoreOpts<T>] *)
Module Opts.
Record t (T E W : Type) : Type := mk {
  allItemsCacheMs : Z;
  singleItemCacheMs : Z;
  getUid : T -> ID;
  getAllItems : Promise W E (list (Obj T));
  getItem : ID -> Promise W E (option (Obj T));
  updateItem : ID -> Obj T -> Promise W E (Obj T);
  createItem : Obj T -> Promise W E (Obj T)
}.
End Opts.

(** ** Machine configurations *)

(** The three reactive values of one store ([allItems],
    [lastFetchedAllItems], [gettingAllItems]), the environment and the
    trace. *)
Record Config (T E W : Type) : Type := mkConfig {
  allItems : list (StoreItem T);
  lastFetchedAllItems : option Z;
  gettingAllItems : bool;
  world : W;
  heapNext : nat;
  trace : list (Event T E)
}.

(** How a computation ends: with a value, or by throwing. *)
Inductive Completion (E A : Type) : Type :=
| Normal (a : A)
| Thrown (e : Err E).
Arguments Normal {E A} a.
Arguments Thrown {E A} e.

Section Machine.
Context {T E W : Type}.

Local Notation Config := (Config T E W).

Definition setAllItems (v : list (StoreItem T)) (c : Config) : Config :=
  mkConfig v (lastFetchedAllItems c) (gettingAllItems c) (world c)
    (heapNext c) (trace c).

Definition setLastFetchedAllItems (v : option Z) (c : Config) : Config :=
  mkConfig (allItems c) v (gettingAllItems c) (world c) (heapNext c)
    (trace c).

Definition setGettingAllItems (v : bool) (c : Config) : Config :=
  mkConfig (allItems c) (lastFetchedAllItems c) v (world c) (heapNext c)
    (trace c ++ [EvGettingAllItems v]).

Definition setWorld (w : W) (c : Config) : Config :=
  mkConfig (allItems c) (lastFetchedAllItems c) (gettingAllItems c) w
    (heapNext c) (trace c).

Definition setHeapNext (h : nat) (c : Config) : Config :=
  mkConfig (allItems c) (lastFetchedAllItems c) (gettingAllItems c)
    (world c) h (trace c).

Definition emit (ev : Event T E) (c : Config) : Config :=
  mkConfig (allItems c) (lastFetchedAllItems c) (gettingAllItems c)
    (world c) (heapNext c) (trace c ++ [ev]).

(** The store as [defineCacheStore] creates it. *)
Definition initial (w : W) (h : nat) : Config :=
  mkConfig [] None false w h [].

(** *** Computations: state, with exceptions that keep the state *)

Definition M (A : Type) : Type := Config -> Completion E A * Config.

Definition ret {A : Type} (a : A) : M A := fun c => (Normal a, c).

Definition bind {A B : Type} (m : M A) (k : A -> M B) : M B :=
  fun c =>
    match m c with
    | (Normal a, c') => k a c'
    | (Thrown e, c') => (Thrown e, c')
    end.

Definition throw {A : Type} (e : Err E) : M A := fun c => (Thrown e, c).

(** [try { body } catch (e) { handler }] *)
Definition tryCatch {A : Type} (body : M A) (handler : Err E -> M A) : M A :=
  fun c =>
    match body c with
    | (Normal a, c') => (Normal a, c')
    | (Thrown e, c') => handler e c'
    end.

Definition gets {A : Type} (f : Config -> A) : M A :=
  fun c => (Normal (f c), c).

Definition modify (f : Config -> Config) : M unit :=
  fun c => (Normal tt, f c).

End Machine.

Declare Scope js_scope.
Delimit Scope js_scope with js.
Notation "x <- m ;; k" := (bind m (fun x => k))
  (at level 61, m at next level, right associativity) : js_scope.
Notation "m ;; k" := (bind m (fun _ => k))
  (at level 61, right associativity) : js_scope.
Open Scope js_scope.

Section Primitives.
Context {T E W : Type} `{Clock W}.

Local Notation M := (@M T E W).

(** [new Date()] *)
Definition newDate : M Z :=
  fun c => let '(t, w) := dateNow (world c) in (Normal t, setWorld w c).

(** [{ ...o }] *)
Definition spread (o : Obj T) : M (Obj T) :=
  fun c => (Normal (mkObj (heapNext c) (fields o)),
            setHeapNext (S (heapNext c)) c).

(** [console.error(e)] *)
Definition consoleError (e : Err E) : M unit :=
  modify (emit (EvConsoleError e)).

(** [await p], where [p] is the backend call [call]. *)
Definition await {A : Type} (call : Call T) (answer : A -> Answer T)
    (p : Promise W E A) : M A :=
  fun c =>
    let '(r, w, h) := p (world c) (heapNext c) in
    let c' := setHeapNext h (setWorld w c) in
    match r with
    | Resolved a =>
        (Normal a, emit (EvBackend call (Resolved (answer a))) c')
    | Rejected e =>
        (Thrown (BackendError e), emit (EvBackend call (Rejected e)) c')
    end.

(** [items.map(f)] for an effectful callback. *)
Fixpoint mapM {A B : Type} (f : A -> M B) (l : list A) : M (list B) :=
  match l with
  | [] => ret []
  | x :: l' => y <- f x ;; ys <- mapM f l' ;; ret (y :: ys)
  end.

(** [cacheHasExpired] *)
Definition cacheHasExpired (lastFetched : Z) (cacheMs : Z) : M bool :=
  now <- newDate ;;
  ret (now - lastFetched >? cacheMs).

End Primitives.

(** The reactive values of one [itemHelpers] binding: [item.value],
    [getting], [saving]. *)
Record Binding (T : Type) : Type := mkBinding {
  value : option (Obj T);
  getting : bool;
  saving : bool
}.

(** ** [defineCacheStore] *)

Section DefineCacheStore.
Context {T E W : Type} `{Clock W}.
Variable opts : Opts.t T E W.

Local Notation M := (@M T E W).

Definition uid (o : Obj T) : ID := Opts.getUid opts (fields o).

(** [updateStoreItem] *)
Definition updateStoreItem (newItem : Obj T) : M unit :=
  copy <- spread newItem ;;
  stamp <- newDate ;;
  let storeItem := mkStoreItem copy stamp in
  items <- gets (@allItems T E W) ;;
  let index :=
    JsArray.findIndex (fun si => strictEq (uid (item si)) (uid newItem))
      items in
  if index =? -1
  then modify (setAllItems (JsArray.push items storeItem))
  else modify (setAllItems (JsArray.splice items index 1 storeItem)).

(** [getAllItems] *)
Definition getAllItems : M (option (list (StoreItem T))) :=
  modify (setGettingAllItems true) ;;
  lastFetched <- gets (@lastFetchedAllItems T E W) ;;
  valid <- match lastFetched with
           | Some lf =>
               expired <- cacheHasExpired lf (Opts.allItemsCacheMs opts) ;;
               ret (negb expired)
           | None => ret false
           end ;;
  if valid : bool
  then
    modify (setGettingAllItems false) ;;
    items <- gets (@allItems T E W) ;;
    ret (Some items)
  else
    tryCatch
      (items <- await CGetAllItems (@AItems T) (Opts.getAllItems opts) ;;
       entries <- mapM (fun it => stamp <- newDate ;;
                                  ret (mkStoreItem it stamp)) items ;;
       modify (setAllItems entries) ;;
       stamp <- newDate ;;
       modify (setLastFetchedAllItems (Some stamp)) ;;
       modify (setGettingAllItems false) ;;
       items' <- gets (@allItems T E W) ;;
       ret (Some items'))
      (fun e =>
         consoleError e ;;
         modify (setGettingAllItems false) ;;
         ret None).

(** [getSingleItem] *)
Definition getSingleItem (id : ID) : M (option (Obj T)) :=
  items <- gets (@allItems T E W) ;;
  let existingItem :=
    JsArray.find (fun si => strictEq (uid (item si)) id) items in
  valid <- match existingItem with
           | Some ex =>
               expired <- cacheHasExpired (lastFetched ex)
                            (Opts.singleItemCacheMs opts) ;;
               ret (negb expired)
           | None => ret false
           end ;;
  match existingItem, valid with
  | Some ex, true =>
      copy <- spread (item ex) ;;
      ret (Some copy)
  | _, _ =>
      tryCatch
        (freshItem <- await (CGetItem id) (@AItem T)
                        (Opts.getItem opts id) ;;
         match freshItem with
         | None => throw ItemNotFound
         | Some fresh =>
             updateStoreItem fresh ;;
             ret (Some fresh)
         end)
        (fun e => consoleError e ;; ret None)
  end.

(** [updateItem] *)
Definition updateItem (id : ID) (it : Obj T) : M (option (Obj T)) :=
  tryCatch
    (updatedItem <- await (CUpdateItem id it) (fun o => AItem (Some o))
                      (Opts.updateItem opts id it) ;;
     updateStoreItem updatedItem ;;
     ret (Some updatedItem))
    (fun e => consoleError e ;; ret None).

(** [createItem] *)
Definition createItem (it : Obj T) : M (option (Obj T)) :=
  tryCatch
    (createdItem <- await (CCreateItem it) (fun o => AItem (Some o))
                      (Opts.createItem opts it) ;;
     updateStoreItem createdItem ;;
     ret (Some createdItem))
    (fun e => consoleError e ;; ret None).

(** *** [itemHelpers] *)

(** The binding as [itemHelpers(id)] creates it. *)
Definition itemHelpers (id : ID) : Binding T := mkBinding None true false.

Definition setGetting (v : bool) (b : Binding T) : M (Binding T) :=
  modify (emit (EvGetting v)) ;;
  ret (mkBinding (value b) v (saving b)).

Definition setSaving (v : bool) (b : Binding T) : M (Binding T) :=
  modify (emit (EvSaving v)) ;;
  ret (mkBinding (value b) (getting b) v).

(** [get] of the binding made for [id] *)
Definition get (id : ID) (b : Binding T) : M (Binding T) :=
  b1 <- setGetting true b ;;
  v <- getSingleItem id ;;
  let b2 := mkBinding v (getting b1) (saving b1) in
  setGetting false b2.

(** [saveItem] *)
Definition saveItem (b : Binding T) : M (Binding T) :=
  match value b with
  | None => ret b
  | Some v =>
      b1 <- setSaving true b ;;
      let id := uid v in
      updateItem id v ;;
      setSaving false b1
  end.

End DefineCacheStore.


(** ** Sequences of operations *)

Section Operations.
Context {T E W : Type} `{Clock W}.
Variable opts : Opts.t T E W.

Local Notation M := (@M T E W).

(** A call of one of the three single-item operations. *)
Inductive SingleOp : Type :=
| GetSingleItem (id : ID)
| UpdateItem (id : ID) (it : Obj T)
| CreateItem (it : Obj T).

Definition runSingle (s : SingleOp) : M (option (Obj T)) :=
  match s with
  | GetSingleItem id => getSingleItem opts id
  | UpdateItem id it => updateItem opts id it
  | CreateItem it => createItem opts it
  end.

(** A call of one of the four public operations of the store. *)
Inductive Op : Type :=
| OpGetAllItems
| OpSingle (s : SingleOp).

(** The configuration after the call has completed. *)
Definition exec (op : Op) (c : Config T E W) : Config T E W :=
  match op with
  | OpGetAllItems => snd (getAllItems opts c)
  | OpSingle s => snd (runSingle s c)
  end.

Definition execAll (ops : list Op) (c : Config T E W) : Config T E W :=
  fold_left (fun c' op => exec op c') ops c.

(** The call resolved to [undefined]: it neither returned a value nor
    threw. *)
Definition absent (op : Op) (c : Config T E W) : Prop :=
  match op with
  | OpGetAllItems => fst (getAllItems opts c) = Normal None
  | OpSingle s => fst (runSingle s c) = Normal None
  end.

(** What can happen to one binding and its store: a call of the binding's
    [get] or [saveItem], or a call of a store operation from elsewhere. *)
Inductive BindingOp : Type :=
| BGet
| BSaveItem
| BStore (op : Op).

Definition isGet (bop : BindingOp) : bool :=
  match bop with BGet => true | _ => false end.

(** The binding that a completed computation leaves; the store operations
    never throw, so the second case is there for totality only. *)
Definition bindingAfter (b : Binding T)
    (r : Completion E (Binding T) * Config T E W) : Binding T * Config T E W :=
  match r with
  | (Normal b', c') => (b', c')
  | (Thrown _, c') => (b, c')
  end.

Definition execBinding (id : ID) (bop : BindingOp)
    (s : Binding T * Config T E W) : Binding T * Config T E W :=
  match bop with
  | BGet => bindingAfter (fst s) (get opts id (fst s) (snd s))
  | BSaveItem => bindingAfter (fst s) (saveItem opts (fst s) (snd s))
  | BStore op => (fst s, exec op (snd s))
  end.

Definition execBindingAll (id : ID) (bops : list BindingOp)
    (s : Binding T * Config T E W) : Binding T * Config T E W :=
  fold_left (fun s' bop => execBinding id bop s') bops s.

(** *** Vocabulary of the properties *)

(** The backend calls recorded in a trace. *)
Definition isBackendCall (ev : Event T E) : bool :=
  match ev with EvBackend _ _ => true | _ => false end.

(** A backend call that failed: the promise rejected, or fetch-one
    resolved with no record. *)
Definition failedCall (ev : Event T E) : bool :=
  match ev with
  | EvBackend _ (Rejected _) => true
  | EvBackend (CGetItem _) (Resolved (AItem None)) => true
  | _ => false
  end.

Definition backendCalls (tr : list (Event T E)) : list (Event T E) :=
  filter isBackendCall tr.

(** A [console.error]. *)
Definition isConsoleError (ev : Event T E) : bool :=
  match ev with EvConsoleError _ => true | _ => false end.

(** An assignment to [gettingAllItems]. *)
Definition isGettingAllItemsWrite (ev : Event T E) : bool :=
  match ev with EvGettingAllItems _ => true | _ => false end.

(** An [updateItem] call of the backend. *)
Definition isUpdateCall (ev : Event T E) : bool :=
  match ev with EvBackend (CUpdateItem _ _) _ => true | _ => false end.

(** The identifiers of the cached entries, in order. *)
Definition uids (l : list (StoreItem T)) : list ID :=
  map (fun si => uid opts (item si)) l.

(** The cached entries filed under identifier [u]. *)
Definition entriesFor (u : ID) (l : list (StoreItem T)) : list (StoreItem T) :=
  filter (fun si => strictEq (uid opts (item si)) u) l.

(** No identifier occurs twice in a list. *)
Fixpoint distinct (l : list ID) : bool :=
  match l with
  | [] => true
  | u :: l' => negb (existsb (strictEq u) l') && distinct l'
  end.

(** An event is harmless for uniqueness unless it is a whole-collection
    answer naming some identifier twice. *)
Definition fetchedDistinct (ev : Event T E) : bool :=
  match ev with
  | EvBackend CGetAllItems (Resolved (AItems l)) =>
      distinct (map (uid opts) l)
  | _ => true
  end.

(** [n] successive readings of the clock. *)
Fixpoint readings (n : nat) (w : W) : list Z * W :=
  match n with
  | O => ([], w)
  | S n' =>
      let '(t, w1) := dateNow w in
      let '(ts, w2) := readings n' w1 in
      (t :: ts, w2)
  end.

(** Records paired with the time each was stamped at. *)
Fixpoint stamped (l : list (Obj T)) (ts : list Z) : list (StoreItem T) :=
  match l, ts with
  | o :: l', t :: ts' => mkStoreItem o t :: stamped l' ts'
  | _, _ => []
  end.

(** The upsert rule in the words of the specification: the entry [new]
    takes the place of the first entry filed under [u], or goes to the end
    when there is none. *)
Inductive Upserted (u : ID) (new : StoreItem T) :
    list (StoreItem T) -> list (StoreItem T) -> Prop :=
| UpsertReplace pre old post :
    Forall (fun si => uid opts (item si) <> u) pre ->
    uid opts (item old) = u ->
    Upserted u new (pre ++ old :: post) (pre ++ new :: post)
| UpsertAppend l :
    Forall (fun si => uid opts (item si) <> u) l ->
    Upserted u new l (l ++ [new]).

(** The collection window is of no use: nothing was ever fetched, or the
    clock, read once and leaving the world [w1], shows the window over. *)
Definition collectionStale (c : Config T E W) (w1 : W) : Prop :=
  (lastFetchedAllItems c = None /\ w1 = world c) \/
  (exists lf now,
      lastFetchedAllItems c = Some lf /\
      dateNow (world c) = (now, w1) /\
      now - lf > Opts.allItemsCacheMs opts).

(** The single-item window is of no use for [id]: the lookup finds no
    entry, or the clock, read once and leaving the world [w1], shows the
    window of the entry found to be over. *)
Definition entryStale (c : Config T E W) (id : ID) (w1 : W) : Prop :=
  (JsArray.find (fun si => strictEq (uid opts (item si)) id) (allItems c)
     = None /\ w1 = world c) \/
  (exists ex now,
      JsArray.find (fun si => strictEq (uid opts (item si)) id) (allItems c)
        = Some ex /\
      dateNow (world c) = (now, w1) /\
      now - lastFetched ex > Opts.singleItemCacheMs opts).

End Operations.

(** ** The test store and its fake API *)

Module TestStore.

(** [interface Org { name: string; id: number }] *)
Record Org : Type := mkOrg { name : string; id : Z }.

(** The fake database, and the clock of the page: a reading returns
    [nowMs], and [tickMs] milliseconds pass before the next one. *)
Record World : Type := mkWorld {
  orgs : list (Obj Org);
  nowMs : Z;
  tickMs : Z
}.

#[export] Instance clock : Clock World :=
  {| dateNow := fun w => (nowMs w, mkWorld (orgs w) (nowMs w + tickMs w) (tickMs w)) |}.

(** [await new Promise((resolve) => setTimeout(resolve, 1000))] *)
Definition timeout1000 (w : World) : World :=
  mkWorld (orgs w) (nowMs w + 1000) (tickMs w).

Definition setOrgs (l : list (Obj Org)) (w : World) : World :=
  mkWorld l (nowMs w) (tickMs w).

Definition hasId (i : ID) (o : Obj Org) : bool :=
  strictEq (IdNum (id (fields o))) i.

(** [{ ...existingOrg, ...org }] for an [org] carrying both fields. *)
Definition merge (existingOrg org : Org) : Org :=
  mkOrg (name org) (id org).

Module api.

(** [api.orgs.get] *)
Definition orgs_get : Promise World string (list (Obj Org)) :=
  fun w h =>
    let w := timeout1000 w in
    (Resolved (orgs w), w, h).

(** [api.orgs.create] *)
Definition orgs_create (org : Obj Org) : Promise World string (Obj Org) :=
  fun w h =>
    let w := timeout1000 w in
    let w := setOrgs (JsArray.push (orgs w) org) w in
    (Resolved (mkObj h (fields org)), w, S h).

(** [api.org(id).get] *)
Definition org_get (i : ID) : Promise World string (option (Obj Org)) :=
  fun w h =>
    let w := timeout1000 w in
    match JsArray.find (hasId i) (orgs w) with
    | Some org => (Resolved (Some (mkObj h (fields org))), w, S h)
    | None => (Resolved None, w, h)
    end.

(** [api.org(id).update] *)
Definition org_update (i : ID) (org : Obj Org) : Promise World string (Obj Org) :=
  fun w h =>
    let w := timeout1000 w in
    match JsArray.find (hasId i) (orgs w) with
    | None => (Rejected "Org not found"%string, w, h)
    | Some existingOrg =>
        let newOrg := mkObj h (merge (fields existingOrg) (fields org)) in
        let existingOrgIndex := JsArray.findIndex (hasId i) (orgs w) in
        let w := setOrgs (JsArray.splice (orgs w) existingOrgIndex 1 newOrg) w in
        (Resolved (mkObj (S h) (fields newOrg)), w, S (S h))
    end.

End api.

(** [db] *)
Definition db : list (Obj Org) :=
  [ mkObj 0 (mkOrg "Org 1" 1); mkObj 1 (mkOrg "Org 2" 2);
    mkObj 2 (mkOrg "Org 3" 3); mkObj 3 (mkOrg "Org 4" 4) ]%string.

(** The options [useTestStore] passes to [defineCacheStore]. *)
Definition opts : Opts.t Org string World :=
  Opts.mk (1000 * 60) (1000 * 60)
    (fun org => IdNum (id org))
    api.orgs_get
    (fun i => api.org_get i)
    (fun i org => api.org_update i org)
    (fun org => api.orgs_create org).

(** The page when the store has just been set up: the database as
    written, the clock at [t0] and ticking [tick] per reading, the heap
    holding the four records of [db] and whatever else the page has made,
    up to address [h]. *)
Definition start (t0 tick : Z) (h : nat) : Config Org string World :=
  initial (mkWorld db t0 tick) h.

(** Nothing happens for [ms] milliseconds. *)
Definition elapse (ms : Z) (c : Config Org string World) :
    Config Org string World :=
  setWorld (mkWorld (orgs (world c)) (nowMs (world c) + ms)
              (tickMs (world c))) c.

(** *** Situations the test store can be put in

    The inputs of the examples below: records a page hands to the store,
    and states the store reaches from [start]. *)

Definition org1Again : Obj Org := mkObj 4 (mkOrg "Org 1 again" 1).
Definition orgA : Obj Org := mkObj 5 (mkOrg "A" 1).
Definition orgB : Obj Org := mkObj 6 (mkOrg "B" 1).
Definition ghost : Obj Org := mkObj 4 (mkOrg "Ghost" 9).
Definition renamed : Obj Org := mkObj 4 (mkOrg "Org 1 renamed" 1).
Definition renumbered : Obj Org := mkObj 4 (mkOrg "Org 9" 9).

(** The collection has just been fetched. *)
Definition fetched : Config Org string World :=
  exec opts OpGetAllItems (start 0 0 5).

(** Org 1 alone has just been fetched. *)
Definition fetchedOne : Config Org string World :=
  exec opts (OpSingle (GetSingleItem (IdNum 1))) (start 0 0 5).

(** A second organisation with identifier 1 has been created
    ([api.orgs.create] pushes whatever it is given), and the collection
    fetched after that, on a clock that ticks between readings. *)
Definition withDuplicate : Config Org string World :=
  execAll opts [OpSingle (CreateItem org1Again); OpGetAllItems] (start 0 1 7).

(** A wiring of the same API in which the identifier ["current"] stands
    for organisation 1. *)
Definition currentOpts : Opts.t Org string World :=
  Opts.mk (1000 * 60) (1000 * 60)
    (fun org => IdNum (id org))
    api.orgs_get
    (fun i => if strictEq i (IdStr "current")
              then api.org_get (IdNum 1) else api.org_get i)
    (fun i org => api.org_update i org)
    (fun org => api.orgs_create org).

End TestStore.

(** * Properties *)

(** ** Identifiers and array methods *)

Lemma strictEq_true (a b : ID) : strictEq a b = true <-> a = b.
Proof.
  destruct a as [s|n], b as [s'|n']; simpl; split; intro Heq;
    try discriminate.
  - apply String.eqb_eq in Heq. now subst.
  - injection Heq as ->. apply String.eqb_refl.
  - apply Z.eqb_eq in Heq. now subst.
  - injection Heq as ->. apply Z.eqb_refl.
Qed.

Lemma strictEq_false (a b : ID) : strictEq a b = false <-> a <> b.
Proof.
  split.
  - intros Hf Heq. apply strictEq_true in Heq. congruence.
  - intro Hne. destruct (strictEq a b) eqn:Heq; [|reflexivity].
    apply strictEq_true in Heq. contradiction.
Qed.

Lemma strictEq_refl (a : ID) : strictEq a a = true.
Proof. now apply strictEq_true. Qed.

Lemma distinct_NoDup (l : list ID) : distinct l = true <-> NoDup l.
Proof.
  induction l as [|u l IH]; simpl.
  - split; [constructor | reflexivity].
  - rewrite andb_true_iff, negb_true_iff, IH. split.
    + intros [Hnot Hnd]. constructor; [|exact Hnd].
      intro Hin. assert (existsb (strictEq u) l = true) as Hex.
      { apply existsb_exists. exists u. split; [exact Hin|apply strictEq_refl]. }
      congruence.
    + intro Hnd. inversion Hnd as [|? ? Hnotin Hnd']; subst. split; [|exact Hnd'].
      destruct (existsb (strictEq u) l) eqn:Hex; [|reflexivity].
      apply existsb_exists in Hex. destruct Hex as (v & Hin & Heq).
      apply strictEq_true in Heq. subst. contradiction.
Qed.

Section ArrayFacts.
Context {A : Type}.
Variable p : A -> bool.

Lemma findIndexFrom_shape (l : list A) (i : Z) :
  (JsArray.findIndexFrom p l i = -1 /\ Forall (fun x => p x = false) l) \/
  (exists pre x post,
      l = pre ++ x :: post /\ Forall (fun y => p y = false) pre /\
      p x = true /\
      JsArray.findIndexFrom p l i = i + Z.of_nat (List.length pre)) \/
  i < 0.
Proof.
  revert i. induction l as [|x l IH]; intro i; simpl.
  - left. split; [reflexivity|constructor].
  - destruct (p x) eqn:Hpx.
    + right. left. exists [], x, l. simpl. repeat split; auto. lia.
    + destruct (IH (i + 1)) as [[Hm Hall] | [(pre & y & post & -> & Hpre & Hy & Hi) | Hneg]].
      * left. split; [exact Hm|]. constructor; assumption.
      * right. left. exists (x :: pre), y, post. simpl.
        repeat split; auto. rewrite Hi. lia.
      * destruct (Z.eq_dec i (-1)) as [->|Hne]; [right; right; lia|].
        right. right. lia.
Qed.

Lemma findIndex_shape (l : list A) :
  (JsArray.findIndex p l = -1 /\ Forall (fun x => p x = false) l) \/
  (exists pre x post,
      l = pre ++ x :: post /\ Forall (fun y => p y = false) pre /\
      p x = true /\
      JsArray.findIndex p l = Z.of_nat (List.length pre)).
Proof.
  unfold JsArray.findIndex.
  destruct (findIndexFrom_shape l 0) as [Hl | [Hr | Hneg]]; [now left | | lia].
  right. destruct Hr as (pre & x & post & Hl & Hpre & Hx & Hi).
  exists pre, x, post. repeat split; auto.
Qed.

Lemma splice_replace (pre post : list A) (old new : A) :
  JsArray.splice (pre ++ old :: post) (Z.of_nat (List.length pre)) 1 new
  = pre ++ new :: post.
Proof.
  unfold JsArray.splice.
  assert ((Z.of_nat (List.length pre) <? 0) = false) as -> by (apply Z.ltb_ge; lia).
  rewrite Z.min_l by (rewrite length_app; simpl; lia).
  rewrite Nat2Z.id, firstn_app, Nat.sub_diag, firstn_all. simpl.
  rewrite app_nil_r. f_equal. f_equal.
  rewrite skipn_app, skipn_all2 by lia. simpl.
  replace (List.length pre + 1 - List.length pre)%nat with 1%nat by lia.
  reflexivity.
Qed.

End ArrayFacts.

(** ** The upsert rule *)

Section UpsertFacts.
Context {T E W : Type} `{Clock W}.
Variable opts : Opts.t T E W.

Local Notation uid := (uid opts).
Local Notation entriesFor := (entriesFor opts).
Local Notation uids := (uids opts).
Local Notation Upserted := (Upserted opts).

Lemma entriesFor_none (u : ID) (l : list (StoreItem T)) :
  Forall (fun si => uid (item si) <> u) l -> entriesFor u l = [].
Proof.
  induction 1 as [|si l Hne _ IH]; simpl; [reflexivity|].
  apply strictEq_false in Hne. now rewrite Hne.
Qed.

Lemma entriesFor_app (u : ID) (l l' : list (StoreItem T)) :
  entriesFor u (l ++ l') = entriesFor u l ++ entriesFor u l'.
Proof. apply filter_app. Qed.

Lemma entriesFor_cons_same (u : ID) (si : StoreItem T) (l : list (StoreItem T)) :
  uid (item si) = u -> entriesFor u (si :: l) = si :: entriesFor u l.
Proof. intro Hu. simpl. apply strictEq_true in Hu. now rewrite Hu. Qed.

Lemma entriesFor_cons_other (u : ID) (si : StoreItem T) (l : list (StoreItem T)) :
  uid (item si) <> u -> entriesFor u (si :: l) = entriesFor u l.
Proof. intro Hu. simpl. apply strictEq_false in Hu. now rewrite Hu. Qed.

(** After an upsert under [u], the entries filed under [u] are the new
    entry followed by all but the first of the old ones. *)
Lemma Upserted_entriesFor_same (u : ID) (new : StoreItem T)
    (l l' : list (StoreItem T)) :
  Upserted u new l l' -> uid (item new) = u ->
  entriesFor u l' = new :: tl (entriesFor u l).
Proof.
  intros Hup Hnew. destruct Hup as [pre old post Hpre Hold | l Hall].
  - rewrite !entriesFor_app, (entriesFor_none Hpre).
    rewrite !entriesFor_cons_same by assumption. reflexivity.
  - rewrite entriesFor_app, (entriesFor_none Hall).
    rewrite entriesFor_cons_same by assumption. reflexivity.
Qed.

(** An upsert under [u] leaves the entries filed elsewhere as they were. *)
Lemma Upserted_entriesFor_other (u b : ID) (new : StoreItem T)
    (l l' : list (StoreItem T)) :
  Upserted u new l l' -> uid (item new) = u -> b <> u ->
  entriesFor b l' = entriesFor b l.
Proof.
  intros Hup Hnew Hb. destruct Hup as [pre old post Hpre Hold | l Hall].
  - rewrite !entriesFor_app. f_equal.
    rewrite !entriesFor_cons_other by congruence. reflexivity.
  - rewrite entriesFor_app, entriesFor_cons_other by congruence.
    apply app_nil_r.
Qed.

(** ... and at the positions they had. *)
Lemma Upserted_nth_other (u : ID) (new : StoreItem T)
    (l l' : list (StoreItem T)) (i : nat) (si : StoreItem T) :
  Upserted u new l l' -> nth_error l i = Some si -> uid (item si) <> u ->
  nth_error l' i = Some si.
Proof.
  intros Hup Hnth Hsi. destruct Hup as [pre old post Hpre Hold | l Hall].
  - destruct (Nat.lt_ge_cases i (List.length pre)) as [Hlt|Hge].
    + rewrite nth_error_app1 in * by assumption. exact Hnth.
    + rewrite nth_error_app2 in * by assumption.
      destruct (i - List.length pre)%nat as [|k]; simpl in *; [|exact Hnth].
      injection Hnth as ->. contradiction.
  - rewrite nth_error_app1; [exact Hnth|].
    apply nth_error_Some. congruence.
Qed.

Lemma uids_app (l l' : list (StoreItem T)) : uids (l ++ l') = uids l ++ uids l'.
Proof. apply map_app. Qed.

Lemma uids_notin (u : ID) (l : list (StoreItem T)) :
  Forall (fun si => uid (item si) <> u) l -> ~ In u (uids l).
Proof.
  intros Hall Hin. apply in_map_iff in Hin. destruct Hin as (si & Hu & Hin).
  rewrite Forall_forall in Hall. exact (Hall si Hin Hu).
Qed.

(** An upsert does not change which identifiers are present, and where,
    other than by adding [u] at the end when it was absent; so it keeps
    them pairwise distinct. *)
Lemma Upserted_NoDup (u : ID) (new : StoreItem T) (l l' : list (StoreItem T)) :
  Upserted u new l l' -> uid (item new) = u ->
  NoDup (uids l) -> NoDup (uids l').
Proof.
  intros Hup Hnew Hnd. destruct Hup as [pre old post Hpre Hold | l Hall].
  - rewrite uids_app in *. simpl in *. now rewrite Hnew, <- Hold.
  - rewrite uids_app. simpl. rewrite Hnew.
    apply NoDup_app; [exact Hnd | repeat constructor; intros [] |].
    intros a Ha [<-|[]]. exact (uids_notin Hall Ha).
Qed.

(** [updateStoreItem] follows the upsert rule: it files a fresh copy of
    the record, stamped with a reading of the clock, under the record's
    identifier, and touches nothing else of the store. *)
Lemma updateStoreItem_run (r : Obj T) (c : Config T E W) :
  exists items',
    Upserted (uid r)
      (mkStoreItem (mkObj (heapNext c) (fields r)) (fst (dateNow (world c))))
      (allItems c) items' /\
    updateStoreItem opts r c
    = (Normal tt,
       mkConfig items' (lastFetchedAllItems c) (gettingAllItems c)
         (snd (dateNow (world c))) (S (heapNext c)) (trace c)).
Proof.
  unfold updateStoreItem, bind, spread, newDate, gets, modify. simpl.
  destruct (dateNow (world c)) as [t w1]. simpl.
  set (p := fun si : StoreItem T => strictEq (uid (item si)) (uid r)).
  destruct (findIndex_shape p (allItems c))
    as [[Hidx Hall] | (pre & old & post & Hl & Hpre & Hold & Hidx)].
  - rewrite Hidx. simpl. eexists. split; [|reflexivity].
    apply UpsertAppend. eapply Forall_impl; [|exact Hall].
    intros si Hsi. now apply strictEq_false.
  - rewrite Hidx.
    assert ((Z.of_nat (List.length pre) =? -1) = false) as ->
      by (apply Z.eqb_neq; lia).
    eexists. split; [|unfold setAllItems; simpl; reflexivity].
    rewrite Hl, splice_replace. apply UpsertReplace.
    + eapply Forall_impl; [|exact Hpre].
      intros si Hsi. now apply strictEq_false.
    + now apply strictEq_true.
Qed.

End UpsertFacts.

(** ** What each operation does, case by case *)

Ltac config_simpl :=
  unfold setGettingAllItems, setLastFetchedAllItems, setAllItems, setWorld,
    setHeapNext, emit in *;
  simpl in *.

Section RunFacts.
Context {T E W : Type} `{Clock W}.
Variable opts : Opts.t T E W.

Local Notation uid := (uid opts).
Local Notation Upserted := (Upserted opts).
Local Notation Config := (Config T E W).

Lemma readings_length (n : nat) (w : W) :
  List.length (fst (readings n w)) = n.
Proof.
  revert w. induction n as [|n IH]; intro w; simpl; [reflexivity|].
  destruct (dateNow w) as [t w1]. specialize (IH w1).
  destruct (readings n w1) as [ts w2]. simpl in *. now rewrite IH.
Qed.

Lemma stamped_items (l : list (Obj T)) (ts : list Z) :
  List.length ts = List.length l -> map (@item T) (stamped l ts) = l.
Proof.
  revert ts. induction l as [|o l IH]; intros [|t ts] Hlen; simpl in *;
    try discriminate; [reflexivity|].
  f_equal. apply IH. lia.
Qed.

Lemma stamped_length (l : list (Obj T)) (ts : list Z) :
  List.length ts = List.length l -> List.length (stamped l ts) = List.length l.
Proof.
  intro Hlen. rewrite <- (stamped_items l ts Hlen) at 2. now rewrite length_map.
Qed.

Lemma stamped_uids (l : list (Obj T)) (ts : list Z) :
  List.length ts = List.length l -> uids opts (stamped l ts) = map uid l.
Proof.
  intro Hlen. unfold uids. rewrite <- (stamped_items l ts Hlen) at 2.
  now rewrite map_map.
Qed.

(** The callback of [items.map] in [getAllItems] stamps each record with
    its own reading of the clock. *)
Lemma mapM_stamp (l : list (Obj T)) (c : Config) :
  mapM (fun it => stamp <- newDate ;; ret (mkStoreItem it stamp)) l c
  = (Normal (stamped l (fst (readings (List.length l) (world c)))),
     setWorld (snd (readings (List.length l) (world c))) c).
Proof.
  revert c. induction l as [|o l IH]; intro c; simpl.
  - destruct c; reflexivity.
  - unfold bind at 1. unfold bind at 1. unfold newDate at 1.
    destruct (dateNow (world c)) as [t w1]. unfold ret at 1.
    unfold bind at 1. rewrite IH. simpl.
    destruct (readings (List.length l) w1) as [ts w2]. reflexivity.
Qed.

(** The body shared by [updateItem] and [createItem]: await the backend,
    upsert what it returned, return it; on rejection log and return
    nothing. *)
Lemma writeBack_run (call : Call T) (p : Promise W E (Obj T)) (c : Config) :
  let body :=
    tryCatch
      (x <- await call (fun o => AItem (Some o)) p ;;
       updateStoreItem opts x ;;
       ret (Some x))
      (fun e => consoleError e ;; ret None) in
  match p (world c) (heapNext c) with
  | (Rejected e, w1, h1) =>
      body c
      = (Normal None,
         mkConfig (allItems c) (lastFetchedAllItems c) (gettingAllItems c)
           w1 h1
           (trace c ++ [EvBackend call (Rejected e);
                        EvConsoleError (BackendError e)]))
  | (Resolved r, w1, h1) =>
      exists items',
        Upserted (uid r) (mkStoreItem (mkObj h1 (fields r)) (fst (dateNow w1)))
          (allItems c) items' /\
        body c
        = (Normal (Some r),
           mkConfig items' (lastFetchedAllItems c) (gettingAllItems c)
             (snd (dateNow w1)) (S h1)
             (trace c ++ [EvBackend call (Resolved (AItem (Some r)))]))
  end.
Proof.
  intro body. subst body.
  destruct (p (world c) (heapNext c)) as [[[r|e] w1] h1] eqn:Hp;
    unfold tryCatch, bind, await; cbv beta; rewrite Hp.
  - match goal with
    | |- context [updateStoreItem opts r ?c1] =>
        destruct (updateStoreItem_run opts r c1) as (items' & Hup & Hrun);
        rewrite Hrun
    end.
    simpl in *. exists items'. split; [exact Hup|reflexivity].
  - unfold consoleError, modify, ret, emit. simpl.
    now rewrite <- app_assoc.
Qed.

Lemma updateItem_run (id : ID) (it : Obj T) (c : Config) :
  match Opts.updateItem opts id it (world c) (heapNext c) with
  | (Rejected e, w1, h1) =>
      updateItem opts id it c
      = (Normal None,
         mkConfig (allItems c) (lastFetchedAllItems c) (gettingAllItems c)
           w1 h1
           (trace c ++ [EvBackend (CUpdateItem id it) (Rejected e);
                        EvConsoleError (BackendError e)]))
  | (Resolved r, w1, h1) =>
      exists items',
        Upserted (uid r) (mkStoreItem (mkObj h1 (fields r)) (fst (dateNow w1)))
          (allItems c) items' /\
        updateItem opts id it c
        = (Normal (Some r),
           mkConfig items' (lastFetchedAllItems c) (gettingAllItems c)
             (snd (dateNow w1)) (S h1)
             (trace c ++ [EvBackend (CUpdateItem id it)
                            (Resolved (AItem (Some r)))]))
  end.
Proof. exact (writeBack_run (CUpdateItem id it) (Opts.updateItem opts id it) c). Qed.

Lemma createItem_run (it : Obj T) (c : Config) :
  match Opts.createItem opts it (world c) (heapNext c) with
  | (Rejected e, w1, h1) =>
      createItem opts it c
      = (Normal None,
         mkConfig (allItems c) (lastFetchedAllItems c) (gettingAllItems c)
           w1 h1
           (trace c ++ [EvBackend (CCreateItem it) (Rejected e);
                        EvConsoleError (BackendError e)]))
  | (Resolved r, w1, h1) =>
      exists items',
        Upserted (uid r) (mkStoreItem (mkObj h1 (fields r)) (fst (dateNow w1)))
          (allItems c) items' /\
        createItem opts it c
        = (Normal (Some r),
           mkConfig items' (lastFetchedAllItems c) (gettingAllItems c)
             (snd (dateNow w1)) (S h1)
             (trace c ++ [EvBackend (CCreateItem it)
                            (Resolved (AItem (Some r)))]))
  end.
Proof. exact (writeBack_run (CCreateItem it) (Opts.createItem opts it) c). Qed.

(** The slow path of [getSingleItem]: await fetch-one, treat no record as
    a failure, upsert and return a record. *)
Lemma fetchOne_run (id : ID) (c : Config) :
  let body :=
    tryCatch
      (freshItem <- await (CGetItem id) (@AItem T) (Opts.getItem opts id) ;;
       match freshItem with
       | None => throw ItemNotFound
       | Some fresh => updateStoreItem opts fresh ;; ret (Some fresh)
       end)
      (fun e => consoleError e ;; ret None) in
  match Opts.getItem opts id (world c) (heapNext c) with
  | (Rejected e, w1, h1) =>
      body c
      = (Normal None,
         mkConfig (allItems c) (lastFetchedAllItems c) (gettingAllItems c)
           w1 h1
           (trace c ++ [EvBackend (CGetItem id) (Rejected e);
                        EvConsoleError (BackendError e)]))
  | (Resolved None, w1, h1) =>
      body c
      = (Normal None,
         mkConfig (allItems c) (lastFetchedAllItems c) (gettingAllItems c)
           w1 h1
           (trace c ++ [EvBackend (CGetItem id) (Resolved (AItem None));
                        EvConsoleError ItemNotFound]))
  | (Resolved (Some r), w1, h1) =>
      exists items',
        Upserted (uid r) (mkStoreItem (mkObj h1 (fields r)) (fst (dateNow w1)))
          (allItems c) items' /\
        body c
        = (Normal (Some r),
           mkConfig items' (lastFetchedAllItems c) (gettingAllItems c)
             (snd (dateNow w1)) (S h1)
             (trace c ++ [EvBackend (CGetItem id)
                            (Resolved (AItem (Some r)))]))
  end.
Proof.
  intro body. subst body.
  destruct (Opts.getItem opts id (world c) (heapNext c))
    as [[[[r|]|e] w1] h1] eqn:Hp;
    unfold tryCatch, bind, await; cbv beta; rewrite Hp.
  - match goal with
    | |- context [updateStoreItem opts r ?c1] =>
        destruct (updateStoreItem_run opts r c1) as (items' & Hup & Hrun);
        rewrite Hrun
    end.
    simpl in *. exists items'. split; [exact Hup|reflexivity].
  - unfold throw, consoleError, modify, ret, emit. simpl.
    now rewrite <- app_assoc.
  - unfold consoleError, modify, ret, emit. simpl.
    now rewrite <- app_assoc.
Qed.

Lemma getSingleItem_run (id : ID) (c : Config) :
  (exists ex,
      JsArray.find (fun si => strictEq (uid (item si)) id) (allItems c)
        = Some ex /\
      fst (dateNow (world c)) - lastFetched ex <= Opts.singleItemCacheMs opts /\
      getSingleItem opts id c
      = (Normal (Some (mkObj (heapNext c) (fields (item ex)))),
         mkConfig (allItems c) (lastFetchedAllItems c) (gettingAllItems c)
           (snd (dateNow (world c))) (S (heapNext c)) (trace c)))
  \/
  (exists w1,
      entryStale opts c id w1 /\
      match Opts.getItem opts id w1 (heapNext c) with
      | (Rejected e, w2, h2) =>
          getSingleItem opts id c
          = (Normal None,
             mkConfig (allItems c) (lastFetchedAllItems c) (gettingAllItems c)
               w2 h2
               (trace c ++ [EvBackend (CGetItem id) (Rejected e);
                            EvConsoleError (BackendError e)]))
      | (Resolved None, w2, h2) =>
          getSingleItem opts id c
          = (Normal None,
             mkConfig (allItems c) (lastFetchedAllItems c) (gettingAllItems c)
               w2 h2
               (trace c ++ [EvBackend (CGetItem id) (Resolved (AItem None));
                            EvConsoleError ItemNotFound]))
      | (Resolved (Some r), w2, h2) =>
          exists items',
            Upserted (uid r)
              (mkStoreItem (mkObj h2 (fields r)) (fst (dateNow w2)))
              (allItems c) items' /\
            getSingleItem opts id c
            = (Normal (Some r),
               mkConfig items' (lastFetchedAllItems c) (gettingAllItems c)
                 (snd (dateNow w2)) (S h2)
                 (trace c ++ [EvBackend (CGetItem id)
                                (Resolved (AItem (Some r)))]))
      end).
Proof.
  remember (getSingleItem opts id c) as res eqn:Hres.
  unfold getSingleItem in Hres.
  match type of Hres with
  | context [tryCatch ?body ?handler] =>
      set (slow := tryCatch body handler) in Hres
  end.
  cbv [bind gets cacheHasExpired newDate ret negb spread] in Hres.
  destruct (JsArray.find (fun si => strictEq (uid (item si)) id) (allItems c))
    as [ex|] eqn:Hfind.
  - destruct (dateNow (world c)) as [now w1] eqn:Hnow.
    destruct (now - lastFetched ex >? Opts.singleItemCacheMs opts) eqn:Hexp.
    + right. exists w1. split.
      * right. exists ex, now. repeat split; auto.
        apply Z.gtb_lt in Hexp. lia.
      * pose proof (fetchOne_run id (setWorld w1 c)) as Hrun.
        cbv zeta in Hrun. subst slow. rewrite <- Hres in Hrun. exact Hrun.
    + left. exists ex. simpl. split; [reflexivity|]. split.
      * rewrite Z.gtb_ltb in Hexp. apply Z.ltb_ge in Hexp. exact Hexp.
      * exact Hres.
  - right. exists (world c). split.
    + left. split; [exact Hfind|reflexivity].
    + pose proof (fetchOne_run id c) as Hrun.
      cbv zeta in Hrun. subst slow. rewrite <- Hres in Hrun. exact Hrun.
Qed.

(** The slow path of [getAllItems]. *)
Lemma fetchAll_run (c : Config) :
  let body :=
    tryCatch
      (items <- await CGetAllItems (@AItems T) (Opts.getAllItems opts) ;;
       entries <- mapM (fun it => stamp <- newDate ;;
                                  ret (mkStoreItem it stamp)) items ;;
       modify (setAllItems entries) ;;
       stamp <- newDate ;;
       modify (setLastFetchedAllItems (Some stamp)) ;;
       modify (setGettingAllItems false) ;;
       items' <- gets (@allItems T E W) ;;
       ret (Some items'))
      (fun e =>
         consoleError e ;;
         modify (setGettingAllItems false) ;;
         ret None) in
  match Opts.getAllItems opts (world c) (heapNext c) with
  | (Rejected e, w2, h2) =>
      body c
      = (Normal None,
         mkConfig (allItems c) (lastFetchedAllItems c) false w2 h2
           (trace c ++ [EvBackend CGetAllItems (Rejected e);
                        EvConsoleError (BackendError e);
                        EvGettingAllItems false]))
  | (Resolved items, w2, h2) =>
      let rd := readings (List.length items) w2 in
      body c
      = (Normal (Some (stamped items (fst rd))),
         mkConfig (stamped items (fst rd))
           (Some (fst (dateNow (snd rd)))) false
           (snd (dateNow (snd rd))) h2
           (trace c ++ [EvBackend CGetAllItems (Resolved (AItems items));
                        EvGettingAllItems false]))
  end.
Proof.
  intro body. subst body.
  destruct (Opts.getAllItems opts (world c) (heapNext c))
    as [[[items|e] w2] h2] eqn:Hp;
    unfold tryCatch; unfold bind at 1; unfold await; cbv beta; rewrite Hp.
  - cbv zeta. unfold bind at 1. rewrite mapM_stamp. simpl.
    destruct (readings (List.length items) w2) as [ts w3]. simpl.
    unfold bind, modify, newDate, gets, ret. simpl.
    destruct (dateNow w3) as [tc w4]. config_simpl.
    now rewrite <- app_assoc.
  - unfold consoleError, bind, modify, ret, emit, setGettingAllItems. simpl.
    now rewrite <- !app_assoc.
Qed.

(** [getAllItems]: within the window it answers from the cache; otherwise
    it awaits fetch-all and either replaces the whole sequence or, on
    rejection, logs and leaves the cache alone. *)
Lemma getAllItems_run (c : Config) :
  (exists lf,
      lastFetchedAllItems c = Some lf /\
      fst (dateNow (world c)) - lf <= Opts.allItemsCacheMs opts /\
      getAllItems opts c
      = (Normal (Some (allItems c)),
         mkConfig (allItems c) (Some lf) false (snd (dateNow (world c)))
           (heapNext c)
           (trace c ++ [EvGettingAllItems true; EvGettingAllItems false])))
  \/
  (exists w1,
      collectionStale opts c w1 /\
      match Opts.getAllItems opts w1 (heapNext c) with
      | (Rejected e, w2, h2) =>
          getAllItems opts c
          = (Normal None,
             mkConfig (allItems c) (lastFetchedAllItems c) false w2 h2
               (trace c ++ [EvGettingAllItems true;
                            EvBackend CGetAllItems (Rejected e);
                            EvConsoleError (BackendError e);
                            EvGettingAllItems false]))
      | (Resolved items, w2, h2) =>
          let rd := readings (List.length items) w2 in
          getAllItems opts c
          = (Normal (Some (stamped items (fst rd))),
             mkConfig (stamped items (fst rd))
               (Some (fst (dateNow (snd rd)))) false
               (snd (dateNow (snd rd))) h2
               (trace c ++ [EvGettingAllItems true;
                            EvBackend CGetAllItems (Resolved (AItems items));
                            EvGettingAllItems false]))
      end).
Proof.
  remember (getAllItems opts c) as res eqn:Hres.
  unfold getAllItems in Hres.
  match type of Hres with
  | context [tryCatch ?body ?handler] =>
      set (slow := tryCatch body handler) in Hres
  end.
  cbv [bind modify gets cacheHasExpired newDate ret negb] in Hres.
  change (lastFetchedAllItems (setGettingAllItems true c))
    with (lastFetchedAllItems c) in Hres.
  destruct (lastFetchedAllItems c) as [lf|] eqn:Hlf; cbv beta iota in Hres.
  - change (world (setGettingAllItems true c)) with (world c) in Hres.
    destruct (dateNow (world c)) as [now w1] eqn:Hnow; cbv beta iota in Hres.
    destruct (now - lf >? Opts.allItemsCacheMs opts) eqn:Hexp;
      cbv beta iota in Hres.
    + right. exists w1. split.
      * right. exists lf, now. repeat split; auto.
        apply Z.gtb_lt in Hexp. lia.
      * pose proof (fetchAll_run (setWorld w1 (setGettingAllItems true c)))
          as Hslow.
        cbv zeta in Hslow. subst slow. rewrite <- Hres in Hslow.
        config_simpl.
        destruct (Opts.getAllItems opts w1 (heapNext c)) as [[[items|e] w2] h2];
          cbv zeta in *; rewrite Hslow, ?Hlf; now rewrite <- app_assoc.
    + left. exists lf. simpl. split; [reflexivity|]. split.
      * rewrite Z.gtb_ltb in Hexp. apply Z.ltb_ge in Hexp. exact Hexp.
      * rewrite Hres. config_simpl. rewrite Hlf. now rewrite <- app_assoc.
  - right. exists (world c). split.
    + left. split; [exact Hlf|reflexivity].
    + pose proof (fetchAll_run (setGettingAllItems true c)) as Hslow.
      cbv zeta in Hslow. subst slow. rewrite <- Hres in Hslow.
      config_simpl.
      destruct (Opts.getAllItems opts (world c) (heapNext c))
        as [[[items|e] w2] h2];
        cbv zeta in *; rewrite Hslow, ?Hlf; now rewrite <- app_assoc.
Qed.

End RunFacts.

(** ** The time-to-live windows and the whole-collection fetch *)

Section WindowFacts.
Context {T E W : Type} `{Clock W}.
Variable opts : Opts.t T E W.

Local Notation Config := (Config T E W).

Lemma backendCalls_app (tr tr' : list (Event T E)) :
  backendCalls (tr ++ tr') = backendCalls tr ++ backendCalls tr'.
Proof. apply filter_app. Qed.

(** The world in which a stale collection is refetched is determined by
    the configuration. *)
Lemma collectionStale_world (c : Config) (w1 w1' : W) :
  collectionStale opts c w1 -> collectionStale opts c w1' -> w1 = w1'.
Proof.
  intros [[Hn ->] | (lf & now & Hlf & Hnow & _)]
         [[Hn' ->] | (lf' & now' & Hlf' & Hnow' & _)];
    try congruence.
Qed.

Lemma stamped_stamps (l : list (Obj T)) (ts : list Z) :
  List.length ts = List.length l -> map (@lastFetched T) (stamped l ts) = ts.
Proof.
  revert ts. induction l as [|o l IH]; intros [|t ts] Hlen; simpl in *;
    try discriminate; [reflexivity|].
  f_equal. apply IH. lia.
Qed.

(** C1. Whenever the collection has been fetched and the clock shows that
    no more than [allItemsCacheMs] milliseconds have passed since,
    [getAllItems] returns the cached entry sequence as it is, calls no
    backend function, and leaves the entries and the collection's
    last-fetched time unchanged. *)
Theorem getAllItems_within_window (c : Config) (lf now : Z) (w1 : W) :
  lastFetchedAllItems c = Some lf ->
  dateNow (world c) = (now, w1) ->
  now - lf <= Opts.allItemsCacheMs opts ->
  fst (getAllItems opts c) = Normal (Some (allItems c)) /\
  backendCalls (trace (snd (getAllItems opts c))) = backendCalls (trace c) /\
  allItems (snd (getAllItems opts c)) = allItems c /\
  lastFetchedAllItems (snd (getAllItems opts c)) = lastFetchedAllItems c.
Proof.
  intros Hlf Hnow Hwin.
  destruct (getAllItems_run opts c)
    as [(lf' & Hlf' & _ & Hrun) | (w1' & Hstale & _)].
  - rewrite Hrun. simpl. repeat split; [|congruence].
    rewrite backendCalls_app. simpl. apply app_nil_r.
  - exfalso. destruct Hstale as [[Hnone _] | (lf' & now' & Hlf' & Hnow' & Hgt)].
    + congruence.
    + rewrite Hlf in Hlf'. rewrite Hnow in Hnow'.
      injection Hlf' as <-. injection Hnow' as <- <-. lia.
Qed.

(** C2. Whenever the collection was never fetched or its window is over,
    and the backend's fetch-all resolves with [N] records, [getAllItems]
    replaces the entry sequence, whatever it held, by exactly those [N]
    records in the backend's order, each stamped with the reading of the
    clock taken as it is stored, sets the collection's last-fetched time
    to the next reading, and returns the new sequence. *)
Theorem getAllItems_refetch (c : Config) (w1 : W) (items : list (Obj T))
    (w2 : W) (h2 : nat) :
  collectionStale opts c w1 ->
  Opts.getAllItems opts w1 (heapNext c) = (Resolved items, w2, h2) ->
  let ts := fst (readings (List.length items) w2) in
  let tc := fst (dateNow (snd (readings (List.length items) w2))) in
  let c' := snd (getAllItems opts c) in
  fst (getAllItems opts c) = Normal (Some (allItems c')) /\
  allItems c' = stamped items ts /\
  List.length (allItems c') = List.length items /\
  map (@item T) (allItems c') = items /\
  map (@lastFetched T) (allItems c') = ts /\
  lastFetchedAllItems c' = Some tc.
Proof.
  intros Hstale Hfetch ts tc c'. subst ts tc c'.
  pose proof (readings_length (List.length items) w2) as Hlen.
  destruct (getAllItems_run opts c)
    as [(lf & Hlf & Hwin & _) | (w1' & Hstale' & Hrun)].
  - exfalso. destruct Hstale as [[Hnone _] | (lf' & now' & Hlf' & Hnow' & Hgt)].
    + congruence.
    + rewrite Hnow' in Hwin. simpl in Hwin.
      rewrite Hlf in Hlf'. injection Hlf' as <-. lia.
  - rewrite (collectionStale_world Hstale' Hstale) in Hrun.
    rewrite Hfetch in Hrun. cbv zeta in Hrun. rewrite Hrun. simpl.
    repeat split.
    + now apply stamped_length.
    + now apply stamped_items.
    + now apply stamped_stamps.
Qed.

(** C4. Whenever a backend call made by a public operation fails (the
    promise rejects, or fetch-one resolves with no record), the
    operation resolves to [undefined], throwing nothing, and the entries
    and the collection's last-fetched time are as before the call. *)
Theorem backend_failure_contained (op : Op) (c : Config)
    (evs : list (Event T E)) :
  trace (exec opts op c) = trace c ++ evs ->
  existsb failedCall evs = true ->
  absent opts op c /\
  allItems (exec opts op c) = allItems c /\
  lastFetchedAllItems (exec opts op c) = lastFetchedAllItems c.
Proof.
  intros Htrace Hfailed.
  destruct op as [|[id|id it|it]]; unfold exec, absent, runSingle in *.
  - destruct (getAllItems_run opts c)
      as [(lf & Hlf & _ & Hrun) | (w1 & _ & Hrun)].
    + rewrite Hrun in Htrace. simpl in Htrace.
      apply app_inv_head in Htrace. subst evs. discriminate.
    + destruct (Opts.getAllItems opts w1 (heapNext c)) as [[[items|e] w2] h2];
        cbv zeta in Hrun; rewrite Hrun in *; simpl in *.
      * apply app_inv_head in Htrace. subst evs. discriminate.
      * auto.
  - destruct (getSingleItem_run opts id c)
      as [(ex & _ & _ & Hrun) | (w1 & _ & Hrun)].
    + rewrite Hrun in Htrace. simpl in Htrace.
      rewrite <- (app_nil_r (trace c)) in Htrace at 1.
      apply app_inv_head in Htrace. subst evs. discriminate.
    + destruct (Opts.getItem opts id w1 (heapNext c))
        as [[[[r|]|e] w2] h2].
      * destruct Hrun as (items' & _ & Hrun). rewrite Hrun in Htrace.
        simpl in Htrace. apply app_inv_head in Htrace. subst evs.
        discriminate.
      * rewrite Hrun. simpl. auto.
      * rewrite Hrun. simpl. auto.
  - pose proof (updateItem_run opts id it c) as Hrun.
    destruct (Opts.updateItem opts id it (world c) (heapNext c))
      as [[[r|e] w1] h1].
    + destruct Hrun as (items' & _ & Hrun). rewrite Hrun in Htrace.
      simpl in Htrace. apply app_inv_head in Htrace. subst evs. discriminate.
    + rewrite Hrun. simpl. auto.
  - pose proof (createItem_run opts it c) as Hrun.
    destruct (Opts.createItem opts it (world c) (heapNext c))
      as [[[r|e] w1] h1].
    + destruct Hrun as (items' & _ & Hrun). rewrite Hrun in Htrace.
      simpl in Htrace. apply app_inv_head in Htrace. subst evs. discriminate.
    + rewrite Hrun. simpl. auto.
Qed.

End WindowFacts.

(** ** Single-item operations *)

Section SingleItemFacts.
Context {T E W : Type} `{Clock W}.
Variable opts : Opts.t T E W.

Local Notation Config := (Config T E W).
Local Notation uid := (uid opts).
Local Notation entriesFor := (entriesFor opts).
Local Notation Upserted := (Upserted opts).

(** Two upserts in a row, each a use of the upsert rule. *)
Lemma updateStoreItem_twice (c : Config) (r1 r2 : Obj T) :
  let c1 := snd (updateStoreItem opts r1 c) in
  let c2 := snd (updateStoreItem opts r2 c1) in
  let e1 := mkStoreItem (mkObj (heapNext c) (fields r1))
              (fst (dateNow (world c))) in
  let e2 := mkStoreItem (mkObj (S (heapNext c)) (fields r2))
              (fst (dateNow (snd (dateNow (world c))))) in
  Upserted (uid r1) e1 (allItems c) (allItems c1) /\
  Upserted (uid r2) e2 (allItems c1) (allItems c2).
Proof.
  intros c1 c2 e1 e2. subst c1 c2 e1 e2.
  destruct (updateStoreItem_run opts r1 c) as (l1 & Hup1 & Hrun1).
  rewrite Hrun1. simpl.
  match goal with
  | |- context [updateStoreItem opts r2 ?c1] =>
      destruct (updateStoreItem_run opts r2 c1) as (l2 & Hup2 & Hrun2);
      rewrite Hrun2
  end.
  simpl in *. split; assumption.
Qed.

(** C3, as the code has it. [updateStoreItem] computes the identifier of
    the new record, puts a copy of the record, stamped with the current
    reading of the clock, in the place of the first entry with that
    identifier, or at the end when there is none. Upserting twice with
    records of one identifier leaves that identifier with as many entries
    as it had, or one if it had none, the first of them holding the second
    record; so exactly one entry, with the second record's value,
    whenever the cache held at most one entry for it beforehand. *)
Theorem updateStoreItem_upsert_twice (c : Config) (r1 r2 : Obj T) :
  uid r1 = uid r2 ->
  let u := uid r2 in
  let c1 := snd (updateStoreItem opts r1 c) in
  let c2 := snd (updateStoreItem opts r2 c1) in
  let e1 := mkStoreItem (mkObj (heapNext c) (fields r1))
              (fst (dateNow (world c))) in
  let e2 := mkStoreItem (mkObj (S (heapNext c)) (fields r2))
              (fst (dateNow (snd (dateNow (world c))))) in
  Upserted u e1 (allItems c) (allItems c1) /\
  Upserted u e2 (allItems c1) (allItems c2) /\
  entriesFor u (allItems c2) = e2 :: tl (entriesFor u (allItems c)) /\
  ((List.length (entriesFor u (allItems c)) <= 1)%nat ->
   entriesFor u (allItems c2) = [e2]).
Proof.
  intros Hsame u c1 c2 e1 e2.
  destruct (updateStoreItem_twice c r1 r2) as [Hup1 Hup2].
  fold c1 c2 e1 e2 in Hup1, Hup2. rewrite Hsame in Hup1. fold u in Hup1, Hup2.
  assert (entriesFor u (allItems c2) = e2 :: tl (entriesFor u (allItems c)))
    as Hfor.
  { rewrite (Upserted_entriesFor_same Hup2) by reflexivity.
    rewrite (Upserted_entriesFor_same Hup1) by exact Hsame.
    reflexivity. }
  repeat split; try assumption.
  intro Hle. rewrite Hfor.
  destruct (entriesFor u (allItems c)) as [|x [|y l]]; simpl in *;
    try reflexivity; lia.
Qed.

(** C7. When the backend's update resolves with a record, [updateItem]
    returns that record and upserts a copy of it under the identifier of
    the returned record, not under the [id] it was called with: when the
    two differ, the entries filed under [id] stay as they were. *)
Theorem updateItem_upserts_returned (c : Config) (id : ID) (it r : Obj T)
    (w1 : W) (h1 : nat) :
  Opts.updateItem opts id it (world c) (heapNext c) = (Resolved r, w1, h1) ->
  let c' := snd (updateItem opts id it c) in
  fst (updateItem opts id it c) = Normal (Some r) /\
  Upserted (uid r) (mkStoreItem (mkObj h1 (fields r)) (fst (dateNow w1)))
    (allItems c) (allItems c') /\
  (uid r <> id -> entriesFor id (allItems c') = entriesFor id (allItems c)).
Proof.
  intros Hupd c'. subst c'.
  pose proof (updateItem_run opts id it c) as Hrun. rewrite Hupd in Hrun.
  destruct Hrun as (items' & Hup & Hrun). rewrite Hrun. simpl.
  repeat split; [exact Hup|].
  intro Hne. apply (Upserted_entriesFor_other Hup); [reflexivity|congruence].
Qed.

(** What a single-item operation that returned [r] did to the store: an
    upsert under the identifier of [r], or nothing. *)
Lemma runSingle_returned (s : SingleOp) (c : Config) (r : Obj T) :
  fst (runSingle opts s c) = Normal (Some r) ->
  allItems (snd (runSingle opts s c)) = allItems c \/
  exists new,
    uid (item new) = uid r /\
    Upserted (uid r) new (allItems c) (allItems (snd (runSingle opts s c))).
Proof.
  destruct s as [id|id it|it]; unfold runSingle.
  - destruct (getSingleItem_run opts id c)
      as [(ex & _ & _ & Hrun) | (w1 & _ & Hrun)].
    + rewrite Hrun. simpl. now left.
    + destruct (Opts.getItem opts id w1 (heapNext c)) as [[[[r'|]|e] w2] h2].
      * destruct Hrun as (items' & Hup & Hrun). rewrite Hrun. simpl.
        intro Hr. injection Hr as <-. right. eexists. split; [|exact Hup].
        reflexivity.
      * rewrite Hrun. discriminate.
      * rewrite Hrun. discriminate.
  - pose proof (updateItem_run opts id it c) as Hrun.
    destruct (Opts.updateItem opts id it (world c) (heapNext c))
      as [[[r'|e] w1] h1].
    + destruct Hrun as (items' & Hup & Hrun). rewrite Hrun. simpl.
      intro Hr. injection Hr as <-. right. eexists. split; [|exact Hup].
      reflexivity.
    + rewrite Hrun. discriminate.
  - pose proof (createItem_run opts it c) as Hrun.
    destruct (Opts.createItem opts it (world c) (heapNext c))
      as [[[r'|e] w1] h1].
    + destruct Hrun as (items' & Hup & Hrun). rewrite Hrun. simpl.
      intro Hr. injection Hr as <-. right. eexists. split; [|exact Hup].
      reflexivity.
    + rewrite Hrun. discriminate.
Qed.

Lemma runSingle_lastFetchedAllItems (s : SingleOp) (c : Config) :
  lastFetchedAllItems (snd (runSingle opts s c)) = lastFetchedAllItems c.
Proof.
  destruct s as [id|id it|it]; unfold runSingle.
  - destruct (getSingleItem_run opts id c)
      as [(ex & _ & _ & Hrun) | (w1 & _ & Hrun)].
    + now rewrite Hrun.
    + destruct (Opts.getItem opts id w1 (heapNext c)) as [[[[r'|]|e] w2] h2];
        [destruct Hrun as (items' & _ & Hrun)| |]; now rewrite Hrun.
  - pose proof (updateItem_run opts id it c) as Hrun.
    destruct (Opts.updateItem opts id it (world c) (heapNext c))
      as [[[r'|e] w1] h1];
      [destruct Hrun as (items' & _ & Hrun)|]; now rewrite Hrun.
  - pose proof (createItem_run opts it c) as Hrun.
    destruct (Opts.createItem opts it (world c) (heapNext c))
      as [[[r'|e] w1] h1];
      [destruct Hrun as (items' & _ & Hrun)|]; now rewrite Hrun.
Qed.

(** C8, as the code has it. No single-item operation changes the
    collection's last-fetched time; and one that returns a record leaves
    every entry filed under an identifier other than that of the returned
    record where it was and as it was. *)
Theorem single_item_frame (s : SingleOp) (c : Config) :
  let c' := snd (runSingle opts s c) in
  lastFetchedAllItems c' = lastFetchedAllItems c /\
  forall r a b,
    fst (runSingle opts s c) = Normal (Some r) ->
    uid r = a -> a <> b ->
    entriesFor b (allItems c') = entriesFor b (allItems c) /\
    forall i si,
      nth_error (allItems c) i = Some si -> uid (item si) = b ->
      nth_error (allItems c') i = Some si.
Proof.
  intro c'. subst c'. split; [apply runSingle_lastFetchedAllItems|].
  intros r a b Hret Ha Hab.
  destruct (runSingle_returned s c Hret) as [Hsame | (new & Hnew & Hup)].
  - rewrite Hsame. split; [reflexivity|auto].
  - split.
    + apply (Upserted_entriesFor_other Hup); congruence.
    + intros i si Hnth Hsi.
      eapply Upserted_nth_other; [exact Hup|exact Hnth|congruence].
Qed.

(** C6, as the code has it. When the first entry filed under [id], the
    one the lookup finds, was fetched no more than [singleItemCacheMs]
    milliseconds before the current reading of the clock,
    [getSingleItem id] returns a newly allocated object with the fields
    of the cached record, which is therefore not the stored object, calls
    no backend function and leaves the entries and the collection's
    last-fetched time unchanged. *)
Theorem getSingleItem_within_window (c : Config) (id : ID) (ex : StoreItem T)
    (now : Z) (w1 : W) :
  JsArray.find (fun si => strictEq (uid (item si)) id) (allItems c) = Some ex ->
  dateNow (world c) = (now, w1) ->
  now - lastFetched ex <= Opts.singleItemCacheMs opts ->
  let copy := mkObj (heapNext c) (fields (item ex)) in
  fst (getSingleItem opts id c) = Normal (Some copy) /\
  ((addr (item ex) < heapNext c)%nat -> copy <> item ex) /\
  backendCalls (trace (snd (getSingleItem opts id c))) = backendCalls (trace c) /\
  allItems (snd (getSingleItem opts id c)) = allItems c /\
  lastFetchedAllItems (snd (getSingleItem opts id c)) = lastFetchedAllItems c.
Proof.
  intros Hfind Hnow Hwin copy. subst copy.
  destruct (getSingleItem_run opts id c)
    as [(ex' & Hfind' & _ & Hrun) | (w1' & Hstale & _)].
  - rewrite Hfind in Hfind'. injection Hfind' as <-.
    rewrite Hrun. simpl. repeat split.
    intros Hlt Heq. rewrite <- Heq in Hlt. simpl in Hlt. lia.
  - exfalso. destruct Hstale as [[Hnone _] | (ex' & now' & Hex' & Hnow' & Hgt)].
    + congruence.
    + rewrite Hfind in Hex'. rewrite Hnow in Hnow'.
      injection Hex' as <-. injection Hnow' as <- <-. lia.
Qed.

End SingleItemFacts.

(** ** Uniqueness of identifiers along runs *)

Section InvariantFacts.
Context {T E W : Type} `{Clock W}.
Variable opts : Opts.t T E W.

Local Notation Config := (Config T E W).
Local Notation uid := (uid opts).
Local Notation uids := (uids opts).
Local Notation Upserted := (Upserted opts).

Ltac upserted_entry Hup :=
  match type of Hup with
  | Upserted _ ?new _ _ => exists new; exact Hup
  end.

(** A single-item operation leaves the entries alone or upserts one. *)
Lemma runSingle_store (s : SingleOp) (c : Config) :
  allItems (snd (runSingle opts s c)) = allItems c \/
  exists new,
    Upserted (uid (item new)) new (allItems c)
      (allItems (snd (runSingle opts s c))).
Proof.
  destruct s as [id|id it|it]; unfold runSingle.
  - destruct (getSingleItem_run opts id c)
      as [(ex & _ & _ & Hrun) | (w1 & _ & Hrun)].
    + rewrite Hrun. now left.
    + destruct (Opts.getItem opts id w1 (heapNext c)) as [[[[r'|]|e] w2] h2];
        [destruct Hrun as (items' & Hup & Hrun)| |]; rewrite Hrun; simpl;
        [right; upserted_entry Hup | now left | now left].
  - pose proof (updateItem_run opts id it c) as Hrun.
    destruct (Opts.updateItem opts id it (world c) (heapNext c))
      as [[[r'|e] w1] h1];
      [destruct Hrun as (items' & Hup & Hrun)|]; rewrite Hrun; simpl;
      [right; upserted_entry Hup | now left].
  - pose proof (createItem_run opts it c) as Hrun.
    destruct (Opts.createItem opts it (world c) (heapNext c))
      as [[[r'|e] w1] h1];
      [destruct Hrun as (items' & Hup & Hrun)|]; rewrite Hrun; simpl;
      [right; upserted_entry Hup | now left].
Qed.

(** Operations only ever add to the trace. *)
Lemma runSingle_trace (s : SingleOp) (c : Config) :
  exists evs, trace (snd (runSingle opts s c)) = trace c ++ evs.
Proof.
  destruct s as [id|id it|it]; unfold runSingle.
  - destruct (getSingleItem_run opts id c)
      as [(ex & _ & _ & Hrun) | (w1 & _ & Hrun)].
    + rewrite Hrun. exists []. simpl. now rewrite app_nil_r.
    + destruct (Opts.getItem opts id w1 (heapNext c)) as [[[[r'|]|e] w2] h2];
        [destruct Hrun as (items' & _ & Hrun)| |]; rewrite Hrun; simpl;
        eexists; reflexivity.
  - pose proof (updateItem_run opts id it c) as Hrun.
    destruct (Opts.updateItem opts id it (world c) (heapNext c))
      as [[[r'|e] w1] h1];
      [destruct Hrun as (items' & _ & Hrun)|]; rewrite Hrun; simpl;
      eexists; reflexivity.
  - pose proof (createItem_run opts it c) as Hrun.
    destruct (Opts.createItem opts it (world c) (heapNext c))
      as [[[r'|e] w1] h1];
      [destruct Hrun as (items' & _ & Hrun)|]; rewrite Hrun; simpl;
      eexists; reflexivity.
Qed.

Lemma exec_trace (op : Op) (c : Config) :
  exists evs, trace (exec opts op c) = trace c ++ evs.
Proof.
  destruct op as [|s]; simpl; [|apply runSingle_trace].
  destruct (getAllItems_run opts c)
    as [(lf & _ & _ & Hrun) | (w1 & _ & Hrun)].
  - rewrite Hrun. eexists. reflexivity.
  - destruct (Opts.getAllItems opts w1 (heapNext c)) as [[[items|e] w2] h2];
      cbv zeta in Hrun; rewrite Hrun; eexists; reflexivity.
Qed.

Lemma execAll_trace (ops : list Op) (c : Config) :
  exists evs, trace (execAll opts ops c) = trace c ++ evs.
Proof.
  unfold execAll. revert c. induction ops as [|op ops IH]; intro c; simpl.
  - exists []. now rewrite app_nil_r.
  - destruct (IH (exec opts op c)) as (evs & Hevs).
    destruct (exec_trace op c) as (evs0 & Hevs0).
    exists (evs0 ++ evs). rewrite Hevs, Hevs0.
    now rewrite app_assoc.
Qed.

(** One operation keeps the identifiers distinct, provided that a
    whole-collection answer received on the way names none twice. *)
Lemma exec_keeps_distinct (op : Op) (c : Config) :
  forallb (fetchedDistinct opts) (trace (exec opts op c)) = true ->
  NoDup (uids (allItems c)) ->
  NoDup (uids (allItems (exec opts op c))).
Proof.
  intros Htrace Hnd. destruct op as [|s]; simpl in *.
  - destruct (getAllItems_run opts c)
      as [(lf & _ & _ & Hrun) | (w1 & _ & Hrun)].
    + now rewrite Hrun.
    + destruct (Opts.getAllItems opts w1 (heapNext c)) as [[[items|e] w2] h2];
        cbv zeta in Hrun; rewrite Hrun in *; simpl in *; [|exact Hnd].
      rewrite forallb_app in Htrace. apply andb_true_iff in Htrace.
      destruct Htrace as [_ Htrace]. simpl in Htrace.
      rewrite andb_true_r in Htrace. apply distinct_NoDup in Htrace.
      rewrite stamped_uids; [exact Htrace | apply readings_length].
  - destruct (runSingle_store s c) as [Hsame | (new & Hup)].
    + now rewrite Hsame.
    + exact (Upserted_NoDup Hup eq_refl Hnd).
Qed.

Lemma execAll_keeps_distinct (ops : list Op) (c : Config) :
  forallb (fetchedDistinct opts) (trace (execAll opts ops c)) = true ->
  NoDup (uids (allItems c)) ->
  NoDup (uids (allItems (execAll opts ops c))).
Proof.
  unfold execAll.
  revert c. induction ops as [|op ops IH]; intros c Htrace Hnd; simpl in *.
  - exact Hnd.
  - apply IH; [exact Htrace|].
    apply exec_keeps_distinct; [|exact Hnd].
    destruct (execAll_trace ops (exec opts op c)) as (evs & Hevs).
    unfold execAll in Hevs. rewrite Hevs, forallb_app in Htrace.
    now apply andb_true_iff in Htrace.
Qed.

(** C5, as the code has it. In every state reached from the empty cache
    by calls of [getAllItems], [getSingleItem], [updateItem] and
    [createItem], no two entries have the same identifier, provided that
    no whole-collection answer the backend gave on the way held two
    records with the same identifier. *)
Theorem distinct_uids_reachable (w : W) (h : nat) (ops : list Op) :
  forallb (fetchedDistinct opts) (trace (execAll opts ops (initial w h)))
    = true ->
  NoDup (uids (allItems (execAll opts ops (initial w h)))).
Proof.
  intro Htrace. apply execAll_keeps_distinct; [exact Htrace|]. constructor.
Qed.

End InvariantFacts.

(** ** The per-identifier binding *)

Section BindingFacts.
Context {T E W : Type} `{Clock W}.
Variable opts : Opts.t T E W.

Local Notation Config := (Config T E W).
Local Notation uid := (uid opts).

Lemma getSingleItem_normal (id : ID) (c : Config) :
  exists v, fst (getSingleItem opts id c) = Normal v.
Proof.
  destruct (getSingleItem_run opts id c)
    as [(ex & _ & _ & Hrun) | (w1 & _ & Hrun)].
  - rewrite Hrun. eexists. reflexivity.
  - destruct (Opts.getItem opts id w1 (heapNext c)) as [[[[r'|]|e] w2] h2];
      [destruct Hrun as (items' & _ & Hrun)| |]; rewrite Hrun;
      eexists; reflexivity.
Qed.

(** [get] always completes, with [getting] reset and [saving] untouched. *)
Lemma get_run (id : ID) (b : Binding T) (c : Config) :
  exists v,
    fst (get opts id b c) = Normal (mkBinding v false (saving b)).
Proof.
  unfold get, setGetting.
  cbv [bind modify ret]. simpl.
  destruct (getSingleItem_normal id (emit (EvGetting true) c)) as (v & Hv).
  destruct (getSingleItem opts id (emit (EvGetting true) c)) as [r c1].
  simpl in Hv. subst r. simpl. exists v. reflexivity.
Qed.

(** [saveItem] with a bound value: the flag goes up, the update is
    awaited, and the flag comes down whichever way the update went. *)
Lemma saveItem_run (b : Binding T) (v : Obj T) (c : Config) :
  value b = Some v ->
  exists mid,
    fst (saveItem opts b c) = Normal (mkBinding (Some v) (getting b) false) /\
    trace (snd (saveItem opts b c))
    = trace c ++ [EvSaving true] ++ mid ++ [EvSaving false] /\
    ((exists r,
         mid = [EvBackend (CUpdateItem (uid v) v) (Resolved (AItem (Some r)))])
     \/
     (exists e,
         mid = [EvBackend (CUpdateItem (uid v) v) (Rejected e);
                EvConsoleError (BackendError e)])).
Proof.
  intro Hv. unfold saveItem. rewrite Hv. unfold setSaving.
  cbv [bind modify ret]. simpl. rewrite Hv.
  pose proof (updateItem_run opts (uid v) v (emit (EvSaving true) c)) as Hrun.
  destruct (Opts.updateItem opts (uid v) v (world (emit (EvSaving true) c))
              (heapNext (emit (EvSaving true) c))) as [[[r|e] w1] h1].
  - destruct Hrun as (items' & _ & Hrun). rewrite Hrun. simpl.
    eexists. split; [reflexivity|]. split; [|left; eexists; reflexivity].
    rewrite <- !app_assoc. reflexivity.
  - rewrite Hrun. simpl.
    eexists. split; [reflexivity|]. split; [|right; eexists; reflexivity].
    rewrite <- !app_assoc. reflexivity.
Qed.

Lemma saveItem_getting (b : Binding T) (c : Config) :
  exists b', fst (saveItem opts b c) = Normal b' /\ getting b' = getting b.
Proof.
  destruct (value b) as [v|] eqn:Hv.
  - destruct (saveItem_run b c Hv) as (mid & Hfst & _).
    eexists. split; [exact Hfst|reflexivity].
  - unfold saveItem. rewrite Hv. exists b. split; reflexivity.
Qed.

Lemma execBinding_getting (id : ID) (bop : BindingOp)
    (s : Binding T * Config) :
  getting (fst (execBinding opts id bop s))
  = if isGet bop then false else getting (fst s).
Proof.
  destruct bop as [| |op]; simpl.
  - destruct (get_run id (fst s) (snd s)) as (v & Hv).
    destruct (get opts id (fst s) (snd s)) as [r c1]. simpl in Hv. now subst r.
  - destruct (saveItem_getting (fst s) (snd s)) as (b' & Hb' & Hg).
    destruct (saveItem opts (fst s) (snd s)) as [r c1]. simpl in Hb'.
    now subst r.
  - reflexivity.
Qed.

Lemma execBindingAll_getting (id : ID) (bops : list BindingOp)
    (s : Binding T * Config) :
  getting (fst (execBindingAll opts id bops s))
  = if existsb isGet bops then false else getting (fst s).
Proof.
  unfold execBindingAll.
  revert s. induction bops as [|bop bops IH]; intro s; simpl; [reflexivity|].
  rewrite IH, execBinding_getting.
  destruct (isGet bop); simpl; [|reflexivity].
  now destruct (existsb isGet bops).
Qed.

(** C9, as the code has it. [saveItem] with a value bound sets [saving],
    awaits [updateItem] for the identifier of the bound value, and resets
    [saving] when that call has completed, whether the backend's update
    resolved or rejected: [updateItem] absorbs the rejection, so the
    flag does not stay up. *)
Theorem saveItem_resets_saving (b : Binding T) (v : Obj T) (c : Config) :
  value b = Some v ->
  exists b' mid,
    fst (saveItem opts b c) = Normal b' /\
    saving b' = false /\
    trace (snd (saveItem opts b c))
    = trace c ++ [EvSaving true] ++ mid ++ [EvSaving false] /\
    ((exists r,
         mid = [EvBackend (CUpdateItem (uid v) v) (Resolved (AItem (Some r)))])
     \/
     (exists e,
         mid = [EvBackend (CUpdateItem (uid v) v) (Rejected e);
                EvConsoleError (BackendError e)])).
Proof.
  intro Hv. destruct (saveItem_run b c Hv) as (mid & Hfst & Htrace & Hmid).
  exists (mkBinding (Some v) (getting b) false), mid.
  repeat split; assumption.
Qed.

(** C10. The binding [itemHelpers id] is created with no value, with
    [getting] already up and [saving] down; and whatever calls of its
    [get] and [saveItem] and of the store's operations follow, [getting]
    is down exactly when one of them was a completed [get]. *)
Theorem getting_up_until_first_get (id : ID) (c : Config)
    (bops : list BindingOp) :
  value (@itemHelpers T id) = None /\
  getting (@itemHelpers T id) = true /\
  saving (@itemHelpers T id) = false /\
  getting (fst (execBindingAll opts id bops (itemHelpers id, c)))
  = negb (existsb isGet bops).
Proof.
  repeat split. rewrite execBindingAll_getting. simpl.
  now destruct (existsb isGet bops).
Qed.

End BindingFacts.

(** ** The test store: instances and limits of the properties *)

Module TestStoreFacts.
Import TestStore.

Local Open Scope string_scope.
Local Open Scope list_scope.

(** An instance of C1: a second [getAllItems] right after the first. *)
Lemma getAllItems_within_window_witness :
  fst (getAllItems opts fetched) = Normal (Some (allItems fetched)) /\
  backendCalls (trace (snd (getAllItems opts fetched)))
  = backendCalls (trace fetched) /\
  allItems (snd (getAllItems opts fetched)) = allItems fetched /\
  lastFetchedAllItems (snd (getAllItems opts fetched))
  = lastFetchedAllItems fetched.
Proof.
  apply (@getAllItems_within_window Org string World clock opts fetched
           1000 1000 (world fetched)).
  - reflexivity.
  - reflexivity.
  - vm_compute. discriminate.
Defined.

(** An instance of C2: the first [getAllItems] of the test store. *)
Lemma getAllItems_refetch_witness :
  let c := start 0 1 5 in
  let c' := snd (getAllItems opts c) in
  fst (getAllItems opts c) = Normal (Some (allItems c')) /\
  allItems c' = stamped db [1000; 1001; 1002; 1003] /\
  List.length (allItems c') = 4%nat /\
  map (@item Org) (allItems c') = db /\
  map (@lastFetched Org) (allItems c') = [1000; 1001; 1002; 1003] /\
  lastFetchedAllItems c' = Some 1004.
Proof.
  apply (@getAllItems_refetch Org string World clock opts (start 0 1 5)
           (mkWorld db 0 1) db (mkWorld db 1000 1) 5%nat).
  - left. split; reflexivity.
  - reflexivity.
Defined.

(** An instance of C4: updating an organisation the database lacks. *)
Lemma backend_failure_contained_witness :
  let op := OpSingle (UpdateItem (IdNum 9) ghost) in
  let c := start 0 0 5 in
  absent opts op c /\
  allItems (exec opts op c) = allItems c /\
  lastFetchedAllItems (exec opts op c) = lastFetchedAllItems c.
Proof.
  apply (@backend_failure_contained Org string World clock opts
           (OpSingle (UpdateItem (IdNum 9) ghost)) (start 0 0 5)
           [EvBackend (CUpdateItem (IdNum 9) ghost) (Rejected "Org not found");
            EvConsoleError (BackendError "Org not found")]).
  - reflexivity.
  - reflexivity.
Defined.

(** An instance of C7: organisation 1 is updated with a record that
    carries identifier 9; the fake API merges it in and returns it, and
    the cache files it under 9, leaving the entry of 1 alone. *)
Lemma updateItem_upserts_returned_witness :
  let c := fetched in
  let r := mkObj 6 (mkOrg "Org 9" 9) in
  let c' := snd (updateItem opts (IdNum 1) renumbered c) in
  fst (updateItem opts (IdNum 1) renumbered c) = Normal (Some r) /\
  Upserted opts (IdNum 9) (mkStoreItem (mkObj 7 (fields r)) 2000)
    (allItems c) (allItems c') /\
  entriesFor opts (IdNum 1) (allItems c')
  = entriesFor opts (IdNum 1) (allItems c).
Proof.
  destruct (@updateItem_upserts_returned Org string World clock opts fetched
              (IdNum 1) renumbered (mkObj 6 (mkOrg "Org 9" 9))
              (mkWorld (mkObj 5 (mkOrg "Org 9" 9) :: tl db) 2000 0)
              7%nat eq_refl) as (Hret & Hup & Hframe).
  split; [exact Hret|]. split; [exact Hup|].
  apply Hframe. discriminate.
Defined.

(** Against C3 as stated. Two upserts under identifier 1 into the cache
    that holds two entries for it replace the first of them twice and leave the second: the
    identifier still has two entries, not one. *)
Lemma upsert_twice_keeps_duplicate :
  let c1 := snd (updateStoreItem opts orgA withDuplicate) in
  let c2 := snd (updateStoreItem opts orgB c1) in
  uid opts orgA = uid opts orgB /\
  map (fun si => name (fields (item si)))
    (entriesFor opts (uid opts orgB) (allItems c2))
  = ["B"; "Org 1 again"] /\
  List.length (entriesFor opts (uid opts orgB) (allItems c2)) <> 1%nat.
Proof. vm_compute. repeat split. discriminate. Qed.

(** An instance of C3 as the code has it: two upserts under identifier 1
    into the freshly fetched collection. *)
Lemma updateStoreItem_upsert_twice_witness :
  let c := fetched in
  let u := IdNum 1 in
  let c1 := snd (updateStoreItem opts orgA c) in
  let c2 := snd (updateStoreItem opts orgB c1) in
  let e1 := mkStoreItem (mkObj 5 (fields orgA)) 1000 in
  let e2 := mkStoreItem (mkObj 6 (fields orgB)) 1000 in
  Upserted opts u e1 (allItems c) (allItems c1) /\
  Upserted opts u e2 (allItems c1) (allItems c2) /\
  entriesFor opts u (allItems c2) = [e2].
Proof.
  destruct (@updateStoreItem_upsert_twice Org string World clock opts fetched
              orgA orgB eq_refl) as (Hup1 & Hup2 & _ & Hone).
  split; [exact Hup1|]. split; [exact Hup2|].
  apply Hone. vm_compute. apply le_n.
Defined.

(** Against C5 as stated. After [createItem] of a second organisation 1
    and [getAllItems], both run from the empty cache against the fake API, two entries have
    identifier 1. *)
Lemma duplicate_uids_reachable :
  withDuplicate
  = execAll opts [OpSingle (CreateItem org1Again); OpGetAllItems] (start 0 1 7)
  /\ uids opts (allItems withDuplicate)
     = [IdNum 1; IdNum 2; IdNum 3; IdNum 4; IdNum 1]
  /\ ~ NoDup (uids opts (allItems withDuplicate)).
Proof.
  split; [reflexivity|]. split; [reflexivity|].
  intro Hnd. apply distinct_NoDup in Hnd. vm_compute in Hnd. discriminate.
Qed.

(** An instance of C5 as the code has it. *)
Lemma distinct_uids_reachable_witness :
  NoDup (uids opts (allItems
    (execAll opts
       [OpGetAllItems; OpSingle (GetSingleItem (IdNum 2));
        OpSingle (UpdateItem (IdNum 1) renamed);
        OpSingle (CreateItem (mkObj 4 (mkOrg "Org 5" 5)))]
       (initial (mkWorld db 0 1) 5)))).
Proof.
  apply (@distinct_uids_reachable Org string World clock opts
           (mkWorld db 0 1) 5
           [OpGetAllItems; OpSingle (GetSingleItem (IdNum 2));
            OpSingle (UpdateItem (IdNum 1) renamed);
            OpSingle (CreateItem (mkObj 4 (mkOrg "Org 5" 5)))]).
  vm_compute. reflexivity.
Defined.

(** Against C6 as stated.
    With two entries for identifier 1, the first fetched 60001 ms ago and
    the second 59997 ms ago, the cache does hold an entry for 1 that is
    within the window, yet [getSingleItem 1] looks at the first one only
    and calls the backend. *)
Lemma getSingleItem_ignores_later_duplicate :
  let c := elapse 59995 withDuplicate in
  let now := fst (dateNow (world c)) in
  (exists si,
      In si (allItems c) /\
      uid opts (item si) = IdNum 1 /\
      now - lastFetched si <= Opts.singleItemCacheMs opts) /\
  backendCalls (trace (snd (getSingleItem opts (IdNum 1) c)))
  = backendCalls (trace c)
    ++ [EvBackend (CGetItem (IdNum 1))
          (Resolved (AItem (Some (mkObj 9 (mkOrg "Org 1" 1)))))].
Proof.
  split.
  - exists (mkStoreItem org1Again 2005). split; [|split].
    + vm_compute. tauto.
    + reflexivity.
    + vm_compute. discriminate.
  - vm_compute. reflexivity.
Qed.

(** An instance of C6 as the code has it: organisation 1 is asked for
    again right after it was fetched. *)
Lemma getSingleItem_within_window_witness :
  let c := fetchedOne in
  let ex := mkStoreItem (mkObj 6 (mkOrg "Org 1" 1)) 1000 in
  let copy := mkObj 7 (mkOrg "Org 1" 1) in
  fst (getSingleItem opts (IdNum 1) c) = Normal (Some copy) /\
  copy <> item ex /\
  backendCalls (trace (snd (getSingleItem opts (IdNum 1) c)))
  = backendCalls (trace c) /\
  allItems (snd (getSingleItem opts (IdNum 1) c)) = allItems c /\
  lastFetchedAllItems (snd (getSingleItem opts (IdNum 1) c))
  = lastFetchedAllItems c.
Proof.
  destruct (@getSingleItem_within_window Org string World clock opts
              fetchedOne (IdNum 1)
              (mkStoreItem (mkObj 6 (mkOrg "Org 1" 1)) 1000)
              1000 (world fetchedOne) eq_refl eq_refl
              ltac:(vm_compute; discriminate))
    as (Hret & Hcopy & Hcalls & Hitems & Hlf).
  split; [exact Hret|]. split; [|repeat split; assumption].
  apply Hcopy. vm_compute. apply le_n.
Defined.

(** Against C8 as stated.
    With ["current"] standing for organisation 1, a successful
    [getSingleItem "current"] replaces the entry of identifier 1, which
    is not the identifier asked for. *)
Lemma getSingleItem_alters_other_identifier :
  let c := exec currentOpts OpGetAllItems (start 0 0 5) in
  let a := IdStr "current" in
  let b := IdNum 1 in
  let c' := snd (getSingleItem currentOpts a c) in
  a <> b /\
  fst (getSingleItem currentOpts a c)
  = Normal (Some (mkObj 5 (mkOrg "Org 1" 1))) /\
  entriesFor currentOpts b (allItems c)
  = [mkStoreItem (mkObj 0 (mkOrg "Org 1" 1)) 1000] /\
  entriesFor currentOpts b (allItems c')
  = [mkStoreItem (mkObj 6 (mkOrg "Org 1" 1)) 2000].
Proof. repeat split. discriminate. Qed.

(** An instance of C8: the window over, [getSingleItem 1] refetches
    organisation 1 and leaves the entry of organisation 2 as it was. *)
Lemma single_item_frame_witness :
  let s := GetSingleItem (IdNum 1) in
  let c := elapse 60001 fetched in
  let c' := snd (runSingle opts s c) in
  fst (runSingle opts s c) = Normal (Some (mkObj 5 (mkOrg "Org 1" 1))) /\
  lastFetchedAllItems c' = lastFetchedAllItems c /\
  entriesFor opts (IdNum 2) (allItems c')
  = entriesFor opts (IdNum 2) (allItems c).
Proof.
  intros s c c'.
  destruct (@single_item_frame Org string World clock opts s c)
    as [Hlf Hframe].
  split; [reflexivity|]. split; [exact Hlf|].
  exact (proj1 (Hframe (mkObj 5 (mkOrg "Org 1" 1)) (IdNum 1) (IdNum 2)
                  eq_refl eq_refl ltac:(discriminate))).
Defined.

(** Against C9 as stated.
    The bound organisation does not exist in the database, the backend's
    update rejects, and after [saveItem] the flag is down again. *)
Lemma saveItem_failed_saving_reset :
  let b := mkBinding (Some ghost) false false in
  let r := saveItem opts b (start 0 0 5) in
  In (EvBackend (CUpdateItem (IdNum 9) ghost) (Rejected "Org not found"))
    (trace (snd r)) /\
  fst r = Normal (mkBinding (Some ghost) false false) /\
  ~ (exists b', fst r = Normal b' /\ saving b' = true).
Proof.
  repeat split.
  - vm_compute. tauto.
  - intros (b' & Hb' & Hs). vm_compute in Hb'. injection Hb' as <-.
    discriminate.
Qed.

(** An instance of C9 as the code has it. *)
Lemma saveItem_resets_saving_witness :
  let b := mkBinding (Some ghost) false false in
  let c := start 0 0 5 in
  exists b' mid,
    fst (saveItem opts b c) = Normal b' /\
    saving b' = false /\
    trace (snd (saveItem opts b c))
    = trace c ++ [EvSaving true] ++ mid ++ [EvSaving false] /\
    ((exists r,
         mid = [EvBackend (CUpdateItem (uid opts ghost) ghost)
                  (Resolved (AItem (Some r)))])
     \/
     (exists e,
         mid = [EvBackend (CUpdateItem (uid opts ghost) ghost) (Rejected e);
                EvConsoleError (BackendError e)])).
Proof.
  apply (@saveItem_resets_saving Org string World clock opts
           (mkBinding (Some ghost) false false) ghost (start 0 0 5)).
  reflexivity.
Defined.

End TestStoreFacts.

(** * Further properties of the store *)

(** ** Lookups after upserts *)

Section LookupFacts.
Context {A : Type}.
Variable p : A -> bool.

Lemma find_true (l : list A) (x : A) :
  JsArray.find p l = Some x -> p x = true /\ In x l.
Proof.
  induction l as [|y l IH]; simpl; [discriminate|].
  destruct (p y) eqn:Hy.
  - intro Heq. injection Heq as <-. split; [exact Hy|now left].
  - intro Hf. destruct (IH Hf) as [Hpx Hin]. split; [exact Hpx|now right].
Qed.

Lemma find_first (pre post : list A) (x : A) :
  Forall (fun y => p y = false) pre -> p x = true ->
  JsArray.find p (pre ++ x :: post) = Some x.
Proof.
  induction 1 as [|y pre Hy _ IH]; intro Hx; simpl.
  - now rewrite Hx.
  - rewrite Hy. now apply IH.
Qed.

Lemma find_none (l : list A) :
  Forall (fun y => p y = false) l -> JsArray.find p l = None.
Proof.
  induction 1 as [|y l Hy _ IH]; simpl; [reflexivity|]. now rewrite Hy.
Qed.

Lemma find_app_found (l l' : list A) (x : A) :
  JsArray.find p l = Some x -> JsArray.find p (l ++ l') = Some x.
Proof.
  induction l as [|y l IH]; simpl; [discriminate|].
  destruct (p y); [trivial|exact IH].
Qed.

Lemma find_app_missing (l l' : list A) :
  JsArray.find p l = None -> JsArray.find p (l ++ l') = JsArray.find p l'.
Proof.
  induction l as [|y l IH]; simpl; [reflexivity|].
  destruct (p y); [discriminate|exact IH].
Qed.

End LookupFacts.

Section MoreStoreFacts.
Context {T E W : Type} `{Clock W}.
Variable opts : Opts.t T E W.

Local Notation Config := (Config T E W).
Local Notation uid := (uid opts).
Local Notation uids := (uids opts).
Local Notation Upserted := (Upserted opts).
Local Notation lookup u l :=
  (JsArray.find (fun si => strictEq (uid (item si)) u) l).

(** After an upsert under [u], the lookup of [u] finds the new entry. *)
Lemma Upserted_lookup (u : ID) (new : StoreItem T) (l l' : list (StoreItem T)) :
  Upserted u new l l' -> uid (item new) = u -> lookup u l' = Some new.
Proof.
  intros Hup Hnew. destruct Hup as [pre old post Hpre Hold | l Hall].
  - apply find_first.
    + eapply Forall_impl; [|exact Hpre]. intros si Hsi. now apply strictEq_false.
    + now apply strictEq_true.
  - apply find_first.
    + eapply Forall_impl; [|exact Hall]. intros si Hsi. now apply strictEq_false.
    + now apply strictEq_true.
Qed.

(** An upsert keeps the sequence of identifiers, or extends it by one
    that was absent. *)
Lemma Upserted_uids (u : ID) (new : StoreItem T) (l l' : list (StoreItem T)) :
  Upserted u new l l' -> uid (item new) = u ->
  uids l' = uids l \/ (~ In u (uids l) /\ uids l' = uids l ++ [u]).
Proof.
  intros Hup Hnew. destruct Hup as [pre old post Hpre Hold | l Hall].
  - left. unfold uids. rewrite !map_app. simpl. now rewrite Hnew, Hold.
  - right. split; [now apply uids_notin|].
    unfold uids. rewrite map_app. simpl. now rewrite Hnew.
Qed.

(** What one operation adds to the trace: at most one backend call, and
    one [console.error] for each failed call. *)
Lemma exec_events (op : Op) (c : Config) :
  exists evs,
    trace (exec opts op c) = trace c ++ evs /\
    (List.length (backendCalls evs) <= 1)%nat /\
    List.length (filter isConsoleError evs)
    = List.length (filter failedCall evs).
Proof.
  destruct op as [|[id|id it|it]]; unfold exec, runSingle.
  - destruct (getAllItems_run opts c)
      as [(lf & _ & _ & Hrun) | (w1 & _ & Hrun)].
    + rewrite Hrun. eexists. split; [reflexivity|]. simpl. split; [lia|reflexivity].
    + destruct (Opts.getAllItems opts w1 (heapNext c)) as [[[items|e] w2] h2];
        cbv zeta in Hrun; rewrite Hrun; eexists; (split; [reflexivity|]);
        simpl; split; (lia || reflexivity).
  - destruct (getSingleItem_run opts id c)
      as [(ex & _ & _ & Hrun) | (w1 & _ & Hrun)].
    + rewrite Hrun. exists []. simpl. rewrite app_nil_r.
      split; [reflexivity|]. split; [lia|reflexivity].
    + destruct (Opts.getItem opts id w1 (heapNext c)) as [[[[r|]|e] w2] h2];
        [destruct Hrun as (items' & _ & Hrun)| |]; rewrite Hrun;
        eexists; (split; [reflexivity|]); simpl; split; (lia || reflexivity).
  - pose proof (updateItem_run opts id it c) as Hrun.
    destruct (Opts.updateItem opts id it (world c) (heapNext c))
      as [[[r|e] w1] h1];
      [destruct Hrun as (items' & _ & Hrun)|]; rewrite Hrun;
      eexists; (split; [reflexivity|]); simpl; split; (lia || reflexivity).
  - pose proof (createItem_run opts it c) as Hrun.
    destruct (Opts.createItem opts it (world c) (heapNext c))
      as [[[r|e] w1] h1];
      [destruct Hrun as (items' & _ & Hrun)|]; rewrite Hrun;
      eexists; (split; [reflexivity|]); simpl; split; (lia || reflexivity).
Qed.

(** X1. Whichever way [getAllItems] goes (cache hit, refetch, failed
    refetch), it raises [gettingAllItems] first, lowers it last, writes it
    at no other time, and leaves it lowered. *)
Theorem getAllItems_flag (c : Config) :
  gettingAllItems (snd (getAllItems opts c)) = false /\
  exists mid,
    trace (snd (getAllItems opts c))
    = trace c ++ EvGettingAllItems true :: mid ++ [EvGettingAllItems false] /\
    filter isGettingAllItemsWrite mid = [].
Proof.
  destruct (getAllItems_run opts c)
    as [(lf & _ & _ & Hrun) | (w1 & _ & Hrun)].
  - rewrite Hrun. simpl. split; [reflexivity|]. exists []. now split.
  - destruct (Opts.getAllItems opts w1 (heapNext c)) as [[[items|e] w2] h2];
      cbv zeta in Hrun; rewrite Hrun; simpl; (split; [reflexivity|]).
    + exists [EvBackend CGetAllItems (Resolved (AItems items))]. now split.
    + exists [EvBackend CGetAllItems (Rejected e);
              EvConsoleError (BackendError e)]. now split.
Qed.

(** X2. A run of public operations calls the backend at most once per
    operation: nothing is retried, and no operation fans out. *)
Theorem one_backend_call_per_operation (ops : list Op) (c : Config) :
  exists evs,
    trace (execAll opts ops c) = trace c ++ evs /\
    (List.length (backendCalls evs) <= List.length ops)%nat.
Proof.
  unfold execAll. revert c.
  induction ops as [|op ops IH]; intro c; simpl.
  - exists []. rewrite app_nil_r. split; [reflexivity|simpl; lia].
  - destruct (exec_events op c) as (evs0 & Hevs0 & Hcalls & _).
    destruct (IH (exec opts op c)) as (evs & Hevs & Hlen).
    exists (evs0 ++ evs). rewrite Hevs, Hevs0, <- app_assoc.
    split; [reflexivity|].
    unfold backendCalls in *. rewrite filter_app, length_app. lia.
Qed.

(** X3. Along any run of public operations, every failed backend call
    (a rejection, or a fetch-one without record) is reported by one
    [console.error], and nothing else is. *)
Theorem failures_are_logged (ops : list Op) (c : Config) :
  exists evs,
    trace (execAll opts ops c) = trace c ++ evs /\
    List.length (filter isConsoleError evs)
    = List.length (filter failedCall evs).
Proof.
  unfold execAll. revert c.
  induction ops as [|op ops IH]; intro c; simpl.
  - exists []. rewrite app_nil_r. split; reflexivity.
  - destruct (exec_events op c) as (evs0 & Hevs0 & _ & Hlog).
    destruct (IH (exec opts op c)) as (evs & Hevs & Hlen).
    exists (evs0 ++ evs). rewrite Hevs, Hevs0, <- app_assoc.
    split; [reflexivity|].
    rewrite !filter_app, !length_app. lia.
Qed.

(** X4. A single-item operation never evicts or reorders: the sequence
    of cached identifiers is as before, or as before with one identifier
    that was not cached added at the end. *)
Theorem single_item_keeps_identifiers (s : SingleOp) (c : Config) :
  let l := allItems c in
  let l' := allItems (snd (runSingle opts s c)) in
  uids l' = uids l \/
  exists u, ~ In u (uids l) /\ uids l' = uids l ++ [u].
Proof.
  intros l l'. subst l l'.
  destruct (runSingle_store opts s c) as [Hsame | (new & Hup)].
  - left. now rewrite Hsame.
  - destruct (Upserted_uids Hup eq_refl) as [Hu | [Hnot Hu]].
    + now left.
    + right. eexists. split; [exact Hnot|exact Hu].
Qed.

(** Once a single-item operation has returned a record, the lookup of
    that record's identifier finds an entry with the record's fields. *)
Lemma runSingle_lookup (s : SingleOp) (c : Config) (r : Obj T) :
  fst (runSingle opts s c) = Normal (Some r) ->
  exists ex,
    lookup (uid r) (allItems (snd (runSingle opts s c))) = Some ex /\
    fields (item ex) = fields r.
Proof.
  destruct s as [id|id it|it]; unfold runSingle.
  - destruct (getSingleItem_run opts id c)
      as [(ex & Hfind & _ & Hrun) | (w1 & _ & Hrun)].
    + rewrite Hrun. simpl. intro Hr. injection Hr as <-.
      exists ex. split; [|reflexivity].
      destruct (find_true _ _ Hfind) as [Hid _].
      apply strictEq_true in Hid.
      change (uid (mkObj (heapNext c) (fields (item ex))))
        with (uid (item ex)).
      rewrite Hid. exact Hfind.
    + destruct (Opts.getItem opts id w1 (heapNext c)) as [[[[r'|]|e] w2] h2].
      * destruct Hrun as (items' & Hup & Hrun). rewrite Hrun. simpl.
        intro Hr. injection Hr as <-. eexists. split.
        -- exact (Upserted_lookup Hup eq_refl).
        -- reflexivity.
      * rewrite Hrun. discriminate.
      * rewrite Hrun. discriminate.
  - pose proof (updateItem_run opts id it c) as Hrun.
    destruct (Opts.updateItem opts id it (world c) (heapNext c))
      as [[[r'|e] w1] h1].
    + destruct Hrun as (items' & Hup & Hrun). rewrite Hrun. simpl.
      intro Hr. injection Hr as <-. eexists. split.
      * exact (Upserted_lookup Hup eq_refl).
      * reflexivity.
    + rewrite Hrun. discriminate.
  - pose proof (createItem_run opts it c) as Hrun.
    destruct (Opts.createItem opts it (world c) (heapNext c))
      as [[[r'|e] w1] h1].
    + destruct Hrun as (items' & Hup & Hrun). rewrite Hrun. simpl.
      intro Hr. injection Hr as <-. eexists. split.
      * exact (Upserted_lookup Hup eq_refl).
      * reflexivity.
    + rewrite Hrun. discriminate.
Qed.

(** X5. Read your writes. After [getSingleItem], [updateItem] or
    [createItem] has returned a record [r], the cache's lookup of the
    identifier of [r] finds an entry with the fields of [r]; and a
    [getSingleItem] for that identifier, made while that entry is within
    the single-item window, answers with those fields from the cache,
    without a backend call. *)
Theorem read_your_writes (s : SingleOp) (c : Config) (r : Obj T) :
  fst (runSingle opts s c) = Normal (Some r) ->
  let c' := snd (runSingle opts s c) in
  exists ex,
    lookup (uid r) (allItems c') = Some ex /\
    fields (item ex) = fields r /\
    (fst (dateNow (world c')) - lastFetched ex <= Opts.singleItemCacheMs opts ->
     fst (getSingleItem opts (uid r) c')
     = Normal (Some (mkObj (heapNext c') (fields r))) /\
     backendCalls (trace (snd (getSingleItem opts (uid r) c')))
     = backendCalls (trace c')).
Proof.
  intros Hret c'. subst c'.
  destruct (runSingle_lookup s c Hret) as (ex & Hfind & Hfields).
  exists ex. split; [exact Hfind|]. split; [exact Hfields|].
  intro Hwin.
  destruct (getSingleItem_run opts (uid r) (snd (runSingle opts s c)))
    as [(ex' & Hfind' & _ & Hrun) | (w1 & Hstale & _)].
  - rewrite Hfind in Hfind'. injection Hfind' as <-.
    rewrite Hrun. simpl. rewrite Hfields. split; reflexivity.
  - exfalso. destruct Hstale as [[Hnone _] | (ex' & now & Hex' & Hnow & Hgt)].
    + rewrite Hfind in Hnone. discriminate.
    + rewrite Hfind in Hex'. injection Hex' as <-.
      rewrite Hnow in Hwin. simpl in Hwin. lia.
Qed.

Lemma entryStale_world (c : Config) (id : ID) (w1 w1' : W) :
  entryStale opts c id w1 -> entryStale opts c id w1' -> w1 = w1'.
Proof.
  intros [[Hn ->] | (ex & now & Hex & Hnow & _)]
         [[Hn' ->] | (ex' & now' & Hex' & Hnow' & _)];
    try congruence.
Qed.

(** X6. When the backend's create resolves with a record, [createItem]
    returns that record, after exactly one backend call, and files a
    newly allocated copy of it under the identifier of the returned
    record; when the backend gave it another identifier than the
    submitted record has, nothing changes under the submitted one. *)
Theorem createItem_files_returned (c : Config) (it r : Obj T)
    (w1 : W) (h1 : nat) :
  Opts.createItem opts it (world c) (heapNext c) = (Resolved r, w1, h1) ->
  let c' := snd (createItem opts it c) in
  let copy := mkObj h1 (fields r) in
  fst (createItem opts it c) = Normal (Some r) /\
  Upserted (uid r) (mkStoreItem copy (fst (dateNow w1)))
    (allItems c) (allItems c') /\
  ((addr r < h1)%nat -> copy <> r) /\
  (uid r <> uid it ->
   entriesFor opts (uid it) (allItems c')
   = entriesFor opts (uid it) (allItems c)) /\
  backendCalls (trace c')
  = backendCalls (trace c)
    ++ [EvBackend (CCreateItem it) (Resolved (AItem (Some r)))].
Proof.
  intros Hcreate c' copy. subst c' copy.
  pose proof (createItem_run opts it c) as Hrun. rewrite Hcreate in Hrun.
  destruct Hrun as (items' & Hup & Hrun). rewrite Hrun. simpl.
  split; [reflexivity|]. split; [exact Hup|]. split; [|split].
  - intros Hlt Heq. rewrite <- Heq in Hlt. simpl in Hlt. lia.
  - intro Hne.
    apply (Upserted_entriesFor_other Hup); [reflexivity|congruence].
  - unfold backendCalls. now rewrite filter_app.
Qed.

(** X7. When the lookup finds no entry within the window and the
    backend's fetch-one resolves with a record, [getSingleItem] makes
    that one backend call, for the identifier it was asked, returns the
    backend's object itself, and files a newly allocated copy of it under
    the identifier of the returned record. *)
Theorem getSingleItem_fetches (c : Config) (id : ID) (w1 : W) (r : Obj T)
    (w2 : W) (h2 : nat) :
  entryStale opts c id w1 ->
  Opts.getItem opts id w1 (heapNext c) = (Resolved (Some r), w2, h2) ->
  let c' := snd (getSingleItem opts id c) in
  let copy := mkObj h2 (fields r) in
  fst (getSingleItem opts id c) = Normal (Some r) /\
  Upserted (uid r) (mkStoreItem copy (fst (dateNow w2)))
    (allItems c) (allItems c') /\
  ((addr r < h2)%nat -> copy <> r) /\
  backendCalls (trace c')
  = backendCalls (trace c)
    ++ [EvBackend (CGetItem id) (Resolved (AItem (Some r)))].
Proof.
  intros Hstale Hget c' copy. subst c' copy.
  destruct (getSingleItem_run opts id c)
    as [(ex & Hfind & Hwin & _) | (w1' & Hstale' & Hrun)].
  - exfalso. destruct Hstale as [[Hnone _] | (ex' & now & Hex' & Hnow & Hgt)].
    + congruence.
    + rewrite Hfind in Hex'. injection Hex' as <-.
      rewrite Hnow in Hwin. simpl in Hwin. lia.
  - rewrite (entryStale_world Hstale' Hstale), Hget in Hrun.
    destruct Hrun as (items' & Hup & Hrun). rewrite Hrun. simpl.
    split; [reflexivity|]. split; [exact Hup|]. split.
    + intros Hlt Heq. rewrite <- Heq in Hlt. simpl in Hlt. lia.
    + unfold backendCalls. now rewrite filter_app.
Qed.

Lemma exec_lastFetchedAllItems_set (op : Op) (c : Config) (t : Z) :
  lastFetchedAllItems c = Some t ->
  exists t', lastFetchedAllItems (exec opts op c) = Some t'.
Proof.
  intro Hset. destruct op as [|s]; simpl.
  - destruct (getAllItems_run opts c)
      as [(lf & _ & _ & Hrun) | (w1 & _ & Hrun)].
    + rewrite Hrun. eexists. reflexivity.
    + destruct (Opts.getAllItems opts w1 (heapNext c)) as [[[items|e] w2] h2];
        cbv zeta in Hrun; rewrite Hrun; simpl; eexists;
        [reflexivity|exact Hset].
  - rewrite (runSingle_lastFetchedAllItems opts s c). eexists. exact Hset.
Qed.

(** X8. Once the collection's last-fetched time is set, no run of public
    operations unsets it: not a failed refetch, and no single-item
    operation. *)
Theorem lastFetchedAllItems_stays_set (ops : list Op) (c : Config) (t : Z) :
  lastFetchedAllItems c = Some t ->
  exists t', lastFetchedAllItems (execAll opts ops c) = Some t'.
Proof.
  unfold execAll. revert c t.
  induction ops as [|op ops IH]; intros c t Hset; simpl.
  - eexists. exact Hset.
  - destruct (exec_lastFetchedAllItems_set op c Hset) as (t1 & Ht1).
    exact (IH _ _ Ht1).
Qed.

(** X9. [get] binds whatever [getSingleItem] resolved with. So when the
    fetch comes back with nothing, the binding loses the value it held,
    and a [saveItem] right after does nothing at all: no flag is
    written and the backend is not called. *)
Theorem get_without_result_unbinds (id : ID) (b : Binding T) (c : Config) :
  fst (getSingleItem opts id (emit (EvGetting true) c)) = Normal None ->
  value (fst (execBinding opts id BGet (b, c))) = None /\
  execBindingAll opts id [BGet; BSaveItem] (b, c)
  = execBinding opts id BGet (b, c).
Proof.
  intro Hnone.
  assert (exists c1,
    execBinding opts id BGet (b, c) = (mkBinding None false (saving b), c1))
    as (c1 & Hget).
  { unfold execBinding, get, setGetting. cbv [bind modify ret]. simpl.
    destruct (getSingleItem opts id (emit (EvGetting true) c)) as [res c0].
    simpl in Hnone. subst res. simpl. eexists. reflexivity. }
  split; [now rewrite Hget|].
  unfold execBindingAll. cbn [fold_left]. rewrite Hget. reflexivity.
Qed.

(** X10. [saveItem] does not take the backend's answer into the binding:
    when the update resolves with a record [r], the binding still holds
    the value that was submitted, while the cache's lookup of the
    identifier of [r] finds the fields of [r]. *)
Theorem saveItem_keeps_bound_value (b : Binding T) (v r : Obj T)
    (c : Config) (w1 : W) (h1 : nat) :
  value b = Some v ->
  Opts.updateItem opts (uid v) v (world c) (heapNext c) = (Resolved r, w1, h1) ->
  exists b' ex,
    fst (saveItem opts b c) = Normal b' /\
    value b' = Some v /\
    lookup (uid r) (allItems (snd (saveItem opts b c))) = Some ex /\
    fields (item ex) = fields r.
Proof.
  intros Hv Hupd. unfold saveItem. rewrite Hv. unfold setSaving.
  cbv [bind modify ret]. simpl. rewrite Hv.
  pose proof (updateItem_run opts (uid v) v (emit (EvSaving true) c)) as Hrun.
  change (world (emit (EvSaving true) c)) with (world c) in Hrun.
  change (heapNext (emit (EvSaving true) c)) with (heapNext c) in Hrun.
  rewrite Hupd in Hrun. destruct Hrun as (items' & Hup & Hrun).
  rewrite Hrun. simpl. eexists. eexists.
  split; [reflexivity|]. split; [reflexivity|]. split.
  - exact (Upserted_lookup Hup eq_refl).
  - reflexivity.
Qed.

End MoreStoreFacts.

(** * The fake API and the test store on top of it *)

Module FakeApiFacts.
Import TestStore.

Local Open Scope string_scope.
Local Open Scope list_scope.

Local Notation lookup u l :=
  (JsArray.find (fun si => strictEq (uid opts (item si)) u) l).

Lemma hasId_num (n : Z) (o : Obj Org) :
  hasId (IdNum n) o = true <-> id (fields o) = n.
Proof. unfold hasId. simpl. apply Z.eqb_eq. Qed.

Lemma hasId_uid (i : ID) (o : Obj Org) :
  hasId i o = true <-> uid opts o = i.
Proof. exact (strictEq_true (IdNum (id (fields o))) i). Qed.

Lemma hasId_absent (n : Z) (l : list (Obj Org)) :
  (forall o, In o l -> id (fields o) <> n) ->
  Forall (fun o => hasId (IdNum n) o = false) l.
Proof.
  intro Hall. apply Forall_forall. intros o Hin.
  destruct (hasId (IdNum n) o) eqn:Hid; [|reflexivity].
  apply hasId_num in Hid. exfalso. exact (Hall o Hin Hid).
Qed.


(** X11. The fake API compares the identifier it is given with the
    numeric [id] field by [===]: a string identifier matches no
    organisation, whatever the database holds, so [get] resolves with
    nothing and [update] rejects, and neither touches the database. *)
Theorem string_identifier_never_matches (s : string) (org : Obj Org)
    (w : World) (h : nat) :
  api.org_get (IdStr s) w h = (Resolved None, timeout1000 w, h) /\
  api.org_update (IdStr s) org w h
  = (Rejected "Org not found", timeout1000 w, h).
Proof.
  assert (JsArray.find (hasId (IdStr s)) (orgs (timeout1000 w)) = None)
    as Hnone.
  { apply find_none. apply Forall_forall. intros o _. reflexivity. }
  unfold api.org_get, api.org_update. cbv zeta. rewrite Hnone.
  split; reflexivity.
Qed.

(** X12. [api.org(id).get] resolves with nothing exactly when no
    organisation of the database has that [id]; otherwise it resolves
    with a newly allocated copy of one that has. It never changes the
    database. *)
Theorem org_get_finds (n : Z) (w : World) (h : nat) :
  ((forall o, In o (orgs w) -> id (fields o) <> n) ->
   api.org_get (IdNum n) w h = (Resolved None, timeout1000 w, h)) /\
  ((exists o, In o (orgs w) /\ id (fields o) = n) ->
   exists o,
     In o (orgs w) /\ id (fields o) = n /\
     api.org_get (IdNum n) w h
     = (Resolved (Some (mkObj h (fields o))), timeout1000 w, S h)).
Proof.
  unfold api.org_get. cbv zeta.
  change (orgs (timeout1000 w)) with (orgs w). split.
  - intro Hall.
    now rewrite (@find_none _ (hasId (IdNum n)) _ (@hasId_absent n _ Hall)).
  - intros (o & Hin & Hid).
    destruct (JsArray.find (hasId (IdNum n)) (orgs w)) as [org|] eqn:Hfind.
    + destruct (@find_true _ (hasId (IdNum n)) _ _ Hfind) as [Hhas Hin'].
      exists org. split; [exact Hin'|]. split; [now apply hasId_num|].
      reflexivity.
    + exfalso. destruct (findIndex_shape (hasId (IdNum n)) (orgs w))
        as [[_ Hall] | (pre & x & post & Hl & Hpre & Hx & _)].
      * rewrite Forall_forall in Hall. apply hasId_num in Hid.
        rewrite (Hall o Hin) in Hid. discriminate.
      * rewrite Hl, (@find_first _ (hasId (IdNum n)) _ post _ Hpre Hx) in Hfind.
        discriminate.
Qed.

(** [api.org(id).update] when no organisation has the identifier. *)
Lemma org_update_missing (i : ID) (org : Obj Org) (w : World) (h : nat) :
  JsArray.find (hasId i) (orgs w) = None ->
  api.org_update i org w h = (Rejected "Org not found", timeout1000 w, h).
Proof.
  intro Hnone. unfold api.org_update. cbv zeta.
  change (orgs (timeout1000 w)) with (orgs w). now rewrite Hnone.
Qed.




(** X15. Create, then get. [api.orgs.create] never rejects and never
    looks at the identifiers already taken: it appends the very object it
    is given and resolves with a copy. A later [api.orgs.get] returns the
    former organisations followed by the new one; a later
    [api.org(id).get] for the new record's identifier resolves with the
    new fields only if no former organisation had that identifier, and
    with those of the first former one that had it otherwise. *)
Theorem create_then_get (org : Obj Org) (w : World) (h : nat) :
  let res := api.orgs_create org w h in
  let w1 := snd (fst res) in
  let h1 := snd res in
  let n := id (fields org) in
  fst (fst res) = Resolved (mkObj h (fields org)) /\
  api.orgs_get w1 h1 = (Resolved (orgs w ++ [org]), timeout1000 w1, h1) /\
  api.org_get (IdNum n) w1 h1
  = (Resolved
       (Some (mkObj h1
                (fields
                   match JsArray.find (hasId (IdNum n)) (orgs w) with
                   | Some old => old
                   | None => org
                   end))),
     timeout1000 w1, S h1).
Proof.
  intros res w1 h1 n. subst res w1 h1 n.
  unfold api.orgs_create, api.orgs_get, api.org_get, JsArray.push. simpl.
  split; [reflexivity|]. split; [reflexivity|].
  destruct (JsArray.find (hasId (IdNum (id (fields org)))) (orgs w))
    as [old|] eqn:Hfind.
  - now rewrite (find_app_found _ _ [org] Hfind).
  - rewrite (find_app_missing _ _ [org] Hfind). simpl.
    assert (hasId (IdNum (id (fields org))) org = true) as ->
      by now apply hasId_num.
    reflexivity.
Qed.

(** With the test store's options, a record that [getSingleItem] returns
    has the identifier that was asked for. *)
Lemma getSingleItem_returns_asked (c : Config Org string World) (i : ID)
    (r : Obj Org) :
  fst (getSingleItem opts i c) = Normal (Some r) -> uid opts r = i.
Proof.
  destruct (getSingleItem_run opts i c)
    as [(ex & Hfind & _ & Hrun) | (w1 & _ & Hrun)].
  - rewrite Hrun. simpl. intro Hr. injection Hr as <-.
    destruct (@find_true _ _ _ _ Hfind) as [Hid _].
    now apply strictEq_true in Hid.
  - change (Opts.getItem opts i w1 (heapNext c))
      with (api.org_get i w1 (heapNext c)) in Hrun.
    unfold api.org_get in Hrun. cbv zeta in Hrun.
    destruct (JsArray.find (hasId i) (orgs (timeout1000 w1)))
      as [org|] eqn:Hfind.
    + destruct Hrun as (items' & _ & Hrun). rewrite Hrun. simpl.
      intro Hr. injection Hr as <-.
      destruct (@find_true _ _ _ _ Hfind) as [Hhas _].
      now apply hasId_uid in Hhas.
    + rewrite Hrun. discriminate.
Qed.

(** X16. In the test store, a successful [getSingleItem] for identifier
    [a] returns a record of identifier [a], and so leaves the entries of
    every other identifier as they were. *)
Theorem testStore_getSingleItem_frame (c : Config Org string World)
    (a : ID) (r : Obj Org) :
  fst (getSingleItem opts a c) = Normal (Some r) ->
  uid opts r = a /\
  forall b, b <> a ->
    entriesFor opts b (allItems (snd (getSingleItem opts a c)))
    = entriesFor opts b (allItems c).
Proof.
  intro Hret. pose proof (getSingleItem_returns_asked c a Hret) as Huid.
  split; [exact Huid|]. intros b Hb.
  destruct (@runSingle_returned _ _ _ _ opts (GetSingleItem a) c r Hret)
    as [Hsame | (new & Hnew & Hup)];
    change (runSingle opts (GetSingleItem a) c)
      with (getSingleItem opts a c) in *.
  - now rewrite Hsame.
  - apply (Upserted_entriesFor_other Hup); congruence.
Qed.

(** X17. In the test store [createItem] always succeeds: it returns a
    copy of the submitted record, the database gains the submitted
    object at its end, and the cache's lookup of the record's identifier
    finds its fields. *)
Theorem testStore_createItem (c : Config Org string World) (it : Obj Org) :
  let c' := snd (createItem opts it c) in
  fst (createItem opts it c) = Normal (Some (mkObj (heapNext c) (fields it))) /\
  orgs (world c') = orgs (world c) ++ [it] /\
  exists ex,
    lookup (uid opts it) (allItems c') = Some ex /\
    fields (item ex) = fields it.
Proof.
  intro c'. subst c'.
  pose proof (createItem_run opts it c) as Hrun.
  change (Opts.createItem opts it (world c) (heapNext c))
    with (api.orgs_create it (world c) (heapNext c)) in Hrun.
  unfold api.orgs_create in Hrun. cbv zeta in Hrun.
  destruct Hrun as (items' & Hup & Hrun). rewrite Hrun. simpl.
  split; [reflexivity|]. split; [reflexivity|].
  eexists. split; [exact (Upserted_lookup Hup eq_refl)|reflexivity].
Qed.

(** X18. In the test store, [updateItem] for an identifier the database
    does not have resolves to [undefined] and changes neither the cache
    nor the database. *)
Theorem testStore_updateItem_unknown (c : Config Org string World)
    (i : ID) (it : Obj Org) :
  JsArray.find (hasId i) (orgs (world c)) = None ->
  let c' := snd (updateItem opts i it c) in
  fst (updateItem opts i it c) = Normal None /\
  allItems c' = allItems c /\
  lastFetchedAllItems c' = lastFetchedAllItems c /\
  orgs (world c') = orgs (world c).
Proof.
  intros Hnone c'. subst c'.
  pose proof (updateItem_run opts i it c) as Hrun.
  change (Opts.updateItem opts i it (world c) (heapNext c))
    with (api.org_update i it (world c) (heapNext c)) in Hrun.
  rewrite (org_update_missing i it (world c) (heapNext c) Hnone) in Hrun.
  rewrite Hrun. simpl.
  repeat split.
Qed.


End FakeApiFacts.

(** ** Instances on the test store *)

Module FurtherInstances.
Import TestStore.

Local Open Scope string_scope.
Local Open Scope list_scope.

Local Notation lookup u l :=
  (JsArray.find (fun si => strictEq (uid opts (item si)) u) l).

(** An instance of X5: organisation 1 is renamed, then asked for. *)
Lemma read_your_writes_witness :
  let c' := snd (runSingle opts (UpdateItem (IdNum 1) renamed) fetched) in
  fst (getSingleItem opts (IdNum 1) c')
  = Normal (Some (mkObj 8 (mkOrg "Org 1 renamed" 1))) /\
  backendCalls (trace (snd (getSingleItem opts (IdNum 1) c')))
  = backendCalls (trace c').
Proof.
  destruct (@read_your_writes Org string World clock opts
              (UpdateItem (IdNum 1) renamed) fetched
              (mkObj 6 (mkOrg "Org 1 renamed" 1)) eq_refl)
    as (ex & Hfind & _ & Hwin).
  vm_compute in Hfind. injection Hfind as <-.
  apply Hwin. vm_compute. discriminate.
Defined.

(** An instance of X6: a fifth organisation is created. *)
Lemma createItem_files_returned_witness :
  let c := start 0 0 5 in
  let it := mkObj 4 (mkOrg "Org 5" 5) in
  let r := mkObj 5 (mkOrg "Org 5" 5) in
  let c' := snd (createItem opts it c) in
  fst (createItem opts it c) = Normal (Some r) /\
  Upserted opts (IdNum 5) (mkStoreItem (mkObj 6 (mkOrg "Org 5" 5)) 1000)
    (allItems c) (allItems c') /\
  mkObj 6 (mkOrg "Org 5" 5) <> r.
Proof.
  destruct (@createItem_files_returned Org string World clock opts
              (start 0 0 5) (mkObj 4 (mkOrg "Org 5" 5))
              (mkObj 5 (mkOrg "Org 5" 5))
              (mkWorld (db ++ [mkObj 4 (mkOrg "Org 5" 5)]) 1000 0) 6%nat
              eq_refl)
    as (Hret & Hup & Hcopy & _).
  split; [exact Hret|]. split; [exact Hup|].
  apply Hcopy. vm_compute. apply le_n.
Defined.

(** An instance of X7: organisation 2 is asked for with an empty cache. *)
Lemma getSingleItem_fetches_witness :
  let c := start 0 0 5 in
  let r := mkObj 5 (mkOrg "Org 2" 2) in
  let c' := snd (getSingleItem opts (IdNum 2) c) in
  fst (getSingleItem opts (IdNum 2) c) = Normal (Some r) /\
  Upserted opts (IdNum 2) (mkStoreItem (mkObj 6 (mkOrg "Org 2" 2)) 1000)
    (allItems c) (allItems c') /\
  mkObj 6 (mkOrg "Org 2" 2) <> r /\
  backendCalls (trace c')
  = backendCalls (trace c)
    ++ [EvBackend (CGetItem (IdNum 2)) (Resolved (AItem (Some r)))].
Proof.
  destruct (@getSingleItem_fetches Org string World clock opts
              (start 0 0 5) (IdNum 2) (mkWorld db 0 0)
              (mkObj 5 (mkOrg "Org 2" 2)) (mkWorld db 1000 0) 6%nat
              (or_introl (conj eq_refl eq_refl)) eq_refl)
    as (Hret & Hup & Hcopy & Hcalls).
  split; [exact Hret|]. split; [exact Hup|]. split; [|exact Hcalls].
  apply Hcopy. vm_compute. apply le_n.
Defined.

(** An instance of X8: a failed update and a refetch after the first
    fetch. *)
Lemma lastFetchedAllItems_stays_set_witness :
  exists t',
    lastFetchedAllItems
      (execAll opts [OpSingle (UpdateItem (IdNum 9) ghost); OpGetAllItems]
         fetched)
    = Some t'.
Proof.
  apply (@lastFetchedAllItems_stays_set Org string World clock opts
           [OpSingle (UpdateItem (IdNum 9) ghost); OpGetAllItems]
           fetched 1000).
  reflexivity.
Defined.

(** An instance of X9: the bound organisation is gone from the
    database when the binding is refreshed. *)
Lemma get_without_result_unbinds_witness :
  let b := mkBinding (Some ghost) false false in
  let c := start 0 0 5 in
  value (fst (execBinding opts (IdNum 9) BGet (b, c))) = None /\
  execBindingAll opts (IdNum 9) [BGet; BSaveItem] (b, c)
  = execBinding opts (IdNum 9) BGet (b, c).
Proof.
  apply (@get_without_result_unbinds Org string World clock opts (IdNum 9)
           (mkBinding (Some ghost) false false) (start 0 0 5)).
  reflexivity.
Defined.

(** An instance of X10: the renamed organisation 1 is saved. *)
Lemma saveItem_keeps_bound_value_witness :
  let b := mkBinding (Some renamed) false false in
  exists b' ex,
    fst (saveItem opts b fetched) = Normal b' /\
    value b' = Some renamed /\
    lookup (IdNum 1) (allItems (snd (saveItem opts b fetched))) = Some ex /\
    fields (item ex) = mkOrg "Org 1 renamed" 1.
Proof.
  apply (@saveItem_keeps_bound_value Org string World clock opts
           (mkBinding (Some renamed) false false) renamed
           (mkObj 6 (mkOrg "Org 1 renamed" 1)) fetched
           (mkWorld (mkObj 5 (mkOrg "Org 1 renamed" 1) :: tl db) 2000 0)
           7%nat).
  - reflexivity.
  - reflexivity.
Defined.

(** An instance of X12: identifier 9 is not in the database, 2 is. *)
Lemma org_get_finds_witness :
  api.org_get (IdNum 9) (mkWorld db 0 0) 4%nat
  = (Resolved None, mkWorld db 1000 0, 4%nat) /\
  exists o,
    In o db /\ id (fields o) = 2 /\
    api.org_get (IdNum 2) (mkWorld db 0 0) 4%nat
    = (Resolved (Some (mkObj 4 (fields o))), mkWorld db 1000 0, 5%nat).
Proof.
  split.
  - apply (proj1 (FakeApiFacts.org_get_finds 9 (mkWorld db 0 0) 4%nat)).
    intros o Hin. vm_compute in Hin.
    destruct Hin as [<-|[<-|[<-|[<-|[]]]]]; discriminate.
  - apply (proj2 (FakeApiFacts.org_get_finds 2 (mkWorld db 0 0) 4%nat)).
    exists (mkObj 1 (mkOrg "Org 2" 2)). split; [|reflexivity].
    vm_compute. tauto.
Defined.


(** An instance of X16: the window over, organisation 1 is refetched. *)
Lemma testStore_getSingleItem_frame_witness :
  let c := elapse 60001 fetched in
  uid opts (mkObj 5 (mkOrg "Org 1" 1)) = IdNum 1 /\
  entriesFor opts (IdNum 2) (allItems (snd (getSingleItem opts (IdNum 1) c)))
  = entriesFor opts (IdNum 2) (allItems c).
Proof.
  destruct (@FakeApiFacts.testStore_getSingleItem_frame
              (elapse 60001 fetched) (IdNum 1) (mkObj 5 (mkOrg "Org 1" 1))
              eq_refl) as (Huid & Hframe).
  split; [exact Huid|]. apply Hframe. discriminate.
Defined.

(** An instance of X18: the ghost organisation is updated. *)
Lemma testStore_updateItem_unknown_witness :
  let c := fetched in
  let c' := snd (updateItem opts (IdNum 9) ghost c) in
  fst (updateItem opts (IdNum 9) ghost c) = Normal None /\
  allItems c' = allItems c /\
  lastFetchedAllItems c' = lastFetchedAllItems c /\
  orgs (world c') = orgs (world c).
Proof.
  apply (@FakeApiFacts.testStore_updateItem_unknown fetched (IdNum 9) ghost).
  reflexivity.
Defined.


End FurtherInstances.
